(** * getJointSpaceForces: joint-space force decomposition, frame by frame

    A shallow embedding of [getJointSpaceForces.cpp].  The program reads four
    whitespace-delimited numeric streams in lockstep, pushes every frame into
    a multibody dynamics engine (OpenSim / Simbody), and appends the residual
    force, the net internal force and two attachment Jacobians to four text
    files.

    - [double] arithmetic is an interface ([Arith]); the program runs on the
      binary64 instance [float_arith], and exact rational arithmetic
      ([Qc_arith]) is a second instance used to separate what is algebra from
      what is rounding.
    - an [std::ifstream] is its remaining tokens together with its [failbit]
      and [eofbit]; [operator>>] is [extract].
    - the dynamics engine is not part of the repository: it is a record of
      functions ([Engine]), and properties of it are stated as hypotheses.
    - exceptions and undefined behaviour are results of type [result].
    - what [main] sends to [std::cout] is not modelled; the helper functions
      are modelled on the text they write ([Text]). *)

From Stdlib Require Import PrimFloat ZArith QArith Qcanon Ring.
From stdpp Require Import base list strings.

Set Default Proof Using "Type".

(** ** Scalar arithmetic *)

(** The operations and literals of type [double] the program uses.  [atan1]
    is the value of [std::atan(1)]; [opp] is unary minus. *)
Class Arith (num : Type) := {
  zero : num;
  lit4 : num;
  lit180 : num;
  lit_neg035 : num;
  atan1 : num;
  add : num -> num -> num;
  sub : num -> num -> num;
  mul : num -> num -> num;
  div : num -> num -> num;
  opp : num -> num
}.

(** IEEE 754 binary64, round to nearest even: the arithmetic of the program.
    [atan1] is the double nearest to pi/4. *)
#[export] Instance float_arith : Arith float := {
  zero := 0%float;
  lit4 := 4%float;
  lit180 := 180%float;
  lit_neg035 := (-0x1.6666666666666p-2)%float;   (* -0.35 *)
  atan1 := 0x1.921fb54442d18p-1%float;
  add := PrimFloat.add;
  sub := PrimFloat.sub;
  mul := PrimFloat.mul;
  div := PrimFloat.div;
  opp := PrimFloat.opp
}.

(** Exact arithmetic on rationals, with the same literals; [atan1] is the
    rational value of the binary64 constant above. *)
#[export] Instance Qc_arith : Arith Qc := {
  zero := Q2Qc 0;
  lit4 := Q2Qc 4;
  lit180 := Q2Qc 180;
  lit_neg035 := Q2Qc (-7 # 20);
  atan1 := Q2Qc (7074237752028440 # 9007199254740992);
  add := Qcplus;
  sub := Qcminus;
  mul := Qcmult;
  div := Qcdiv;
  opp := Qcopp
}.

(** ** Faults *)

(** [Thrown]: a C++ exception, caught by the handlers at the end of [main].
    [Undefined]: the program left defined behaviour (a write past the end of
    a fixed-size buffer, vector operands of different lengths). *)
Inductive fault := Thrown | Undefined.

Inductive result (A : Type) :=
| OK (a : A)
| Fault (f : fault).
Arguments OK {A} a.
Arguments Fault {A} f.

#[export] Instance result_bind : MBind result := fun A B k r =>
  match r with
  | OK a => k a
  | Fault f => Fault f
  end.

Section Program.

Context {num : Type} `{Arith num}.

(** ** Vectors, matrices, spatial vectors *)

Definition Vector := list num.
Definition Matrix := list (list num).   (* rows *)
Definition Vec3 : Type := num * num * num.
(** [SpatialVec]: element 0 is the rotational part (moment), element 1 the
    linear part (force). *)
Definition SpatialVec : Type := Vec3 * Vec3.

Definition Vec3_0 : Vec3 := (zero, zero, zero).
Definition SpatialVec_0 : SpatialVec := (Vec3_0, Vec3_0).

(** [buf[j]] for an index inside the buffer. *)
Definition at_ (buf : list num) (j : nat) : num := default zero (buf !! j).

(** Elementwise operation on two SimTK vectors; the operands must have the
    same length. *)
Fixpoint vzip (f : num -> num -> num) (u v : Vector) : result Vector :=
  match u, v with
  | [], [] => OK []
  | a :: u', b :: v' => w ← vzip f u' v'; OK (f a b :: w)
  | _, _ => Fault Undefined
  end.

Definition vadd := vzip add.
Definition vsub := vzip sub.

(** ** Input streams *)

(** What follows the read position once leading whitespace is skipped.
    - [Num x]: a floating-point literal whose value [x] is a double.
    - [Junk]: text whose first character cannot belong to a number, such as
      the [t] of a column header; the reader takes no character of it.
    - [Broken v]: text the reader takes characters of without getting a
      double from them: an unfinished literal ([-], [.], [1e]), for which it
      stores [v] = 0, or a literal out of range ([1e999]), for which it
      stores the largest double. *)
Inductive token :=
| Num (x : num)
| Junk
| Broken (v : num).

(** [tight]: the last token is followed directly by the end of the file
    (no trailing whitespace), so that extracting it reaches end-of-input. *)
Record istream := {
  toks : list token;
  tight : bool;
  failbit : bool;
  eofbit : bool
}.

Definition good (s : istream) : bool := negb (failbit s || eofbit s).

(** [eof()] *)
Definition eof (s : istream) : bool := eofbit s.

Definition set_fail (s : istream) : istream :=
  {| toks := toks s; tight := tight s; failbit := true; eofbit := eofbit s |}.

(** [s >> x] for [double x] holding [old].  A stream that is not good only
    gets [failbit]; at end of input both bits are set; text that is not a
    number sets [failbit], stores zero and is not consumed.  Characters
    that were taken without giving a double set [failbit] too, and
    [eofbit] with it when taking them ran into the end of the file. *)
Definition extract (s : istream) (old : num) : num * istream :=
  if good s then
    match toks s with
    | [] =>
        (old, {| toks := []; tight := tight s; failbit := true; eofbit := true |})
    | Junk :: _ => (zero, set_fail s)
    | Num x :: rest =>
        (x, {| toks := rest; tight := tight s; failbit := false;
               eofbit := match rest with [] => tight s | _ => false end |})
    | Broken v :: rest =>
        (v, {| toks := rest; tight := tight s; failbit := true;
               eofbit := match rest with [] => tight s | _ => false end |})
    end
  else (old, set_fail s).

(** [s >> buf[j]] *)
Definition extract_at (s : istream) (buf : list num) (j : nat)
  : list num * istream :=
  let '(v, s') := extract s (at_ buf j) in (<[j := v]> buf, s').

(** The four input streams and the buffers they are read into.  The buffers
    live outside the frame loop and keep their contents between frames. *)
Record Inputs := {
  grfs_file : istream;
  states_file : istream;
  accelerations_file : istream;
  dynamics_file : istream
}.

Record Buffers := {
  time : num;
  grfs : list num;
  states : list num;
  accelerations : list num;
  dynamics : list num
}.

Definition expectedGRFSize : nat := 18.

(** [std::atan(1)*4] *)
Definition pi : num := mul atan1 lit4.

(** [a * (std::atan(1)*4)/180.0] *)
Definition deg2rad (a : num) : num := div (mul a pi) lit180.

(** Lines 174-177: the leading time tag of each stream, all into [time]. *)
Definition read_times (i : Inputs) (b : Buffers) : Inputs * Buffers :=
  let '(t, g) := extract (grfs_file i) (time b) in
  let '(t, s) := extract (states_file i) t in
  let '(t, a) := extract (accelerations_file i) t in
  let '(t, d) := extract (dynamics_file i) t in
  ({| grfs_file := g; states_file := s; accelerations_file := a;
      dynamics_file := d |},
   {| time := t; grfs := grfs b; states := states b;
      accelerations := accelerations b; dynamics := dynamics b |}).

(** Lines 188-190. *)
Definition read_grf_at (j : nat) (ib : Inputs * Buffers) : Inputs * Buffers :=
  let '(i, b) := ib in
  let '(g, s) := extract_at (grfs_file i) (grfs b) j in
  ({| grfs_file := s; states_file := states_file i;
      accelerations_file := accelerations_file i;
      dynamics_file := dynamics_file i |},
   {| time := time b; grfs := g; states := states b;
      accelerations := accelerations b; dynamics := dynamics b |}).

(** Lines 192-204: the body of the loop over [j < 2*n_dofs]. *)
Definition read_dof_at (n_dofs j : nat) (ib : Inputs * Buffers)
  : Inputs * Buffers :=
  let '(i, b) := ib in
  if j <? n_dofs then
    let '(dy, d) := extract_at (dynamics_file i) (dynamics b) j in
    let '(ac, a) := extract_at (accelerations_file i) (accelerations b) j in
    let ac := if (j <? 3) || (5 <? j) then <[j := deg2rad (at_ ac j)]> ac
              else ac in
    let '(st, s) := extract_at (states_file i) (states b) j in
    ({| grfs_file := grfs_file i; states_file := s; accelerations_file := a;
        dynamics_file := d |},
     {| time := time b; grfs := grfs b; states := st; accelerations := ac;
        dynamics := dy |})
  else
    let '(st, s) := extract_at (states_file i) (states b) j in
    ({| grfs_file := grfs_file i; states_file := s;
        accelerations_file := accelerations_file i;
        dynamics_file := dynamics_file i |},
     {| time := time b; grfs := grfs b; states := st;
        accelerations := accelerations b; dynamics := dynamics b |}).

(** [for (int j = lo; j < lo + len; j++) body] *)
Definition for_ {S : Type} (lo len : nat) (body : nat -> S -> S) (s : S) : S :=
  foldl (fun s j => body j s) s (seq lo len).

(** Lines 188-205: the payload of one frame. *)
Definition read_payload (n_dofs : nat) (ib : Inputs * Buffers)
  : Inputs * Buffers :=
  for_ 0 (2 * n_dofs) (read_dof_at n_dofs)
    (for_ 0 expectedGRFSize read_grf_at ib).

(** ** The dynamics engine *)

(** The calls the program makes into OpenSim and Simbody for a loaded model.
    Every frame overwrites the whole state with the [states] buffer
    ([setStateValues]) before it queries the engine, so each query takes
    those values as its first argument.  Bodies are addressed by index. *)
Record Engine := {
  numMobilities : nat;
  numBodies : nat;
  (** [getBodySet()]: the names, in order; [get(j)] throws past the end. *)
  bodySet : list string;
  (** [realize(si, Stage::Dynamics)]; [false] when it throws. *)
  realize : list num -> bool;
  multiplyByM : list num -> Vector -> Vector;
  (** [getGravityForce().getBodyForces(si)] *)
  getBodyForces : list num -> list SpatialVec;
  multiplyBySystemJacobianTranspose : list num -> list SpatialVec -> Vector;
  getTotalCentrifugalForces : list num -> nat -> SpatialVec;
  (** [transformPosition(si, from, point, to)] *)
  transformPosition : list num -> nat -> Vec3 -> nat -> Vec3;
  multiplyByFrameJacobianTranspose :
    list num -> nat -> Vec3 -> SpatialVec -> Vector;
  calcFrameJacobian : list num -> nat -> Vec3 -> Matrix
}.

(** ** One frame: lines 214-366 *)

(** Capacity of [SimTK::Vec<18, SpatialVec> totalCentrifugalForces]. *)
Definition centrifugalCapacity : nat := 18.

(** [totalCentrifugalForces[j] = v].  The boolean stays [true] as long as
    every write so far was inside the buffer. *)
Definition store_centrifugal (j : nat) (v : SpatialVec)
    (bf : list SpatialVec * bool) : list SpatialVec * bool :=
  if j <? centrifugalCapacity then (<[j := v]> bf.1, bf.2) else (bf.1, false).

(** Lines 236-245, from the uninitialised contents [u] of the buffer. *)
Definition totalCentrifugalForces (E : Engine) (st : list num)
    (u : list SpatialVec) : list SpatialVec * bool :=
  for_ 1 (numBodies E - 1)
    (fun j => store_centrifugal j (getTotalCentrifugalForces E st j))
    (store_centrifugal 0 SpatialVec_0 (u, true)).

(** Lines 234-249. *)
Definition coriolis (E : Engine) (st : list num) (u : list SpatialVec)
  : result Vector :=
  let bf := totalCentrifugalForces E st u in
  if bf.2 then OK (multiplyBySystemJacobianTranspose E st bf.1)
  else Fault Undefined.

Definition vec3_at (buf : list num) (j : nat) : Vec3 :=
  (at_ buf j, at_ buf (j + 1), at_ buf (j + 2)).

(** Lines 259-272: the layout of the 18 contact channels. *)
Definition groundRightForce (g : list num) : Vec3 := vec3_at g 0.
Definition groundRightCOP (g : list num) : Vec3 := vec3_at g 3.
Definition groundLeftForce (g : list num) : Vec3 := vec3_at g 6.
Definition groundLeftCOP (g : list num) : Vec3 := vec3_at g 9.
Definition groundRightMoment (g : list num) : Vec3 := vec3_at g 12.
Definition groundLeftMoment (g : list num) : Vec3 := vec3_at g 15.

(** Lines 276-280. *)
Definition orthosisCOP : Vec3 := (zero, lit_neg035, zero).

(** The four objects declared empty at lines 254-255 and filled by the loop
    over the bodies. *)
Record Contact := {
  leftGRFTorques : Vector;
  rightGRFTorques : Vector;
  leftAPOJacobian : Matrix;
  rightAPOJacobian : Matrix
}.

(** Default-constructed [Vector] and [Matrix]: no elements. *)
Definition no_contact : Contact :=
  {| leftGRFTorques := []; rightGRFTorques := [];
     leftAPOJacobian := []; rightAPOJacobian := [] |}.

(** Lines 283-365: the body of the loop over [j < n_bodies]. *)
Definition contact_at (E : Engine) (st g : list num) (j : nat) (c : Contact)
  : result Contact :=
  match bodySet E !! j with
  | None => Fault Thrown
  | Some name =>
      if String.eqb name "calcn_r" then
        let rCalcCOP := transformPosition E st 0 (groundRightCOP g) j in
        OK {| leftGRFTorques := leftGRFTorques c;
              rightGRFTorques :=
                multiplyByFrameJacobianTranspose E st j rCalcCOP
                  (groundRightMoment g, groundRightForce g);
              leftAPOJacobian := leftAPOJacobian c;
              rightAPOJacobian := rightAPOJacobian c |}
      else if String.eqb name "calcn_l" then
        let lCalcCOP := transformPosition E st 0 (groundLeftCOP g) j in
        OK {| leftGRFTorques :=
                multiplyByFrameJacobianTranspose E st j lCalcCOP
                  (groundLeftMoment g, groundLeftForce g);
              rightGRFTorques := rightGRFTorques c;
              leftAPOJacobian := leftAPOJacobian c;
              rightAPOJacobian := rightAPOJacobian c |}
      else if String.eqb name "femur_r" then
        OK {| leftGRFTorques := leftGRFTorques c;
              rightGRFTorques := rightGRFTorques c;
              leftAPOJacobian := leftAPOJacobian c;
              rightAPOJacobian := calcFrameJacobian E st j orthosisCOP |}
      else if String.eqb name "femur_l" then
        OK {| leftGRFTorques := leftGRFTorques c;
              rightGRFTorques := rightGRFTorques c;
              leftAPOJacobian := calcFrameJacobian E st j orthosisCOP;
              rightAPOJacobian := rightAPOJacobian c |}
      else OK c
  end.

(** A [for] loop whose body can fault. *)
Definition for_r {S : Type} (lo len : nat) (body : nat -> S -> result S)
    (s : S) : result S :=
  foldl (fun r j => r ≫= body j) (OK s) (seq lo len).

(** Lines 254-366. *)
Definition contacts (E : Engine) (st g : list num) : result Contact :=
  for_r 0 (numBodies E) (contact_at E st g) no_contact.

(** The contributions of one frame. *)
Record Torques := {
  inertiaTorques : Vector;
  gravityTorques : Vector;
  coriolisTorques : Vector;
  contact : Contact
}.

(** Lines 214-366, for the buffers [b] and the uninitialised contents [u]
    of the centrifugal-force buffer. *)
Definition decompose (E : Engine) (u : list SpatialVec) (b : Buffers)
  : result Torques :=
  let st := states b in
  if realize E st then
    let inertia := multiplyByM E st (accelerations b) in
    let gravity := multiplyBySystemJacobianTranspose E st (getBodyForces E st) in
    cor ← coriolis E st u;
    c ← contacts E st (grfs b);
    OK {| inertiaTorques := inertia; gravityTorques := gravity;
          coriolisTorques := cor; contact := c |}
  else Fault Thrown.

(** ** Output: lines 377-401 *)

(** An output file is the rows the program has inserted into its stream, in
    order; a row holds the values of one line.  The characters of a line
    are the subject of [Text] below.  The program never tests an output
    stream (lines 143-146 open them, nothing reads their state), so a row
    counts as written when the insertion is executed, whether or not the
    file could be opened. *)
Definition File := list (list num).

Record Files := {
  leftAPOJacobian_file : File;
  rightAPOJacobian_file : File;
  residualForce_file : File;
  internalForce_file : File
}.

Definition no_rows : Files :=
  {| leftAPOJacobian_file := []; rightAPOJacobian_file := [];
     residualForce_file := []; internalForce_file := [] |}.

Definition writeVectorTimeless (f : File) (v : Vector) : File := f ++ [v].
Definition writeMatrixTimeless (f : File) (m : Matrix) : File := f ++ m.

(** Lines 387-389. *)
Definition residualForce (t : Torques) (dyn : Vector) : result Vector :=
  r ← vsub (gravityTorques t) (inertiaTorques t);
  r ← vadd r dyn;
  r ← vsub r (coriolisTorques t);
  r ← vadd r (rightGRFTorques (contact t));
  vadd r (leftGRFTorques (contact t)).

(** Lines 390-392. *)
Definition internalForce (t : Torques) : result Vector :=
  r ← vsub (inertiaTorques t) (gravityTorques t);
  r ← vadd r (coriolisTorques t);
  r ← vsub r (rightGRFTorques (contact t));
  vsub r (leftGRFTorques (contact t)).

(** Lines 380-394.  The Jacobians are written before the sums are formed. *)
Definition write_frame (t : Torques) (dyn : Vector) (f : Files)
  : Files * option fault :=
  let l := writeMatrixTimeless (leftAPOJacobian_file f)
             (leftAPOJacobian (contact t)) in
  let r := writeMatrixTimeless (rightAPOJacobian_file f)
             (rightAPOJacobian (contact t)) in
  let jac := {| leftAPOJacobian_file := l; rightAPOJacobian_file := r;
                residualForce_file := residualForce_file f;
                internalForce_file := internalForce_file f |} in
  match residualForce t dyn with
  | Fault e => (jac, Some e)
  | OK res =>
      match internalForce t with
      | Fault e => (jac, Some e)
      | OK int =>
          ({| leftAPOJacobian_file := l; rightAPOJacobian_file := r;
              residualForce_file :=
                writeVectorTimeless (residualForce_file f) res;
              internalForce_file :=
                writeVectorTimeless (internalForce_file f) int |}, None)
      end
  end.

(** ** The frame loop: lines 170-418 *)

(** What the loop carries from one iteration to the next.  [iter] counts the
    iterations; it only selects the uninitialised contents the
    centrifugal-force buffer starts an iteration with. *)
Record LoopState := {
  ins : Inputs;
  buf : Buffers;
  first_frame : bool;
  out : Files;
  iter : nat
}.

Inductive control :=
| Continue
| Break
| Raise (f : fault).

(** Contents of the centrifugal-force buffer before it is written, from
    what storage holds at iteration [k]. *)
Definition uninit_centrifugal (stack : nat -> nat -> SpatialVec) (k : nat)
  : list SpatialVec :=
  stack k <$> seq 0 centrifugalCapacity.

(** One iteration of [while (true)]. *)
Definition loop_body (E : Engine) (stack : nat -> nat -> SpatialVec)
    (s : LoopState) : LoopState * control :=
  let '(i, b) := read_times (ins s) (buf s) in
  if eof (states_file i) then
    ({| ins := i; buf := b; first_frame := first_frame s; out := out s;
        iter := iter s |}, Break)
  else
    let '(i, b) := read_payload (numMobilities E) (i, b) in
    match decompose E (uninit_centrifugal stack (iter s)) b with
    | Fault e =>
        ({| ins := i; buf := b; first_frame := first_frame s; out := out s;
            iter := iter s |}, Raise e)
    | OK t =>
        if first_frame s then
          ({| ins := i; buf := b; first_frame := false; out := out s;
              iter := S (iter s) |}, Continue)
        else
          let '(f, r) := write_frame t (dynamics b) (out s) in
          ({| ins := i; buf := b; first_frame := false; out := f;
              iter := S (iter s) |},
           match r with Some e => Raise e | None => Continue end)
    end.

(** How the loop was left; [Unfinished] when [fuel] iterations did not reach
    the [break]. *)
Inductive ending :=
| Finished
| Failed (f : fault)
| Unfinished.

Fixpoint frame_loop (E : Engine) (stack : nat -> nat -> SpatialVec)
    (fuel : nat) (s : LoopState) : LoopState * ending :=
  match fuel with
  | O => (s, Unfinished)
  | S fuel' =>
      match loop_body E stack s with
      | (s', Continue) => frame_loop E stack fuel' s'
      | (s', Break) => (s', Finished)
      | (s', Raise f) => (s', Failed f)
      end
  end.

(** ** [main] *)

(** What the program finds outside itself.  [load_model] is the [Model]
    constructor followed by [initSystem] ([None] when either throws);
    [open_input] is the state of an [ifstream] after it is opened on a path;
    the [uninit_] fields are what freshly allocated storage holds.
    The test on the optional seventh argument (line 103) applies [atoi] to a
    comparison and has no reading in C++; [rejects_flag] stands for it. *)
Record World := {
  load_model : string -> option Engine;
  open_input : string -> istream;
  rejects_flag : string -> bool;
  uninit_time : num;
  uninit_grfs : nat -> num;
  uninit_states : nat -> num;
  uninit_accelerations : nat -> num;
  uninit_dynamics : nat -> num;
  uninit_stack : nat -> nat -> SpatialVec
}.

Inductive event :=
| LoadModel (path : string)
| OpenInput (path : string)
| OpenOutput (path : string).

(** [Exit c]: [main] returned [c].  [Crash]: the run reached an operation
    without defined behaviour; [written] then holds the rows inserted
    before that point, and nothing is said about what happens after it.
    [Running]: the frame loop was still going when the fuel ran out. *)
Inductive status :=
| Exit (code : Z)
| Crash
| Running.

Record Outcome := {
  exit_status : status;
  events : list event;
  written : Files
}.

Definition arg (argv : list string) (k : nat) : string :=
  default EmptyString (argv !! k).

(** Lines 137-159: the streams and buffers the loop starts from. *)
Definition initial (W : World) (E : Engine) (argv : list string)
  : LoopState :=
  {| ins := {| grfs_file := open_input W (arg argv 2);
               states_file := open_input W (arg argv 3);
               accelerations_file := open_input W (arg argv 4);
               dynamics_file := open_input W (arg argv 5) |};
     buf := {| time := uninit_time W;
               grfs := uninit_grfs W <$> seq 0 expectedGRFSize;
               states := uninit_states W <$> seq 0 (2 * numMobilities E);
               accelerations :=
                 uninit_accelerations W <$> seq 0 (numMobilities E);
               dynamics := uninit_dynamics W <$> seq 0 (numMobilities E) |};
     first_frame := true;
     out := no_rows;
     iter := 0 |}.

(** The identifiers [MODEL_FILE], [REACTION_FORCES], [STATES],
    [ACCELERATIONS], [DYNAMICS] and [JSF_RESULTS] are read as arguments 1 to
    6, in the order the header comment of the file gives.  The outcome is
    the exit status, the files opened and the rows inserted into the four
    output streams.  What goes to [std::cout] is left out: the messages of
    the argument check and of the handlers, and the block of lines 403-417,
    which is guarded by [printInfo], a name the file does not declare;
    [Text.printForceVector] is the function that block would call. *)
Definition main (W : World) (fuel : nat) (argv : list string) : Outcome :=
  let argc := length argv in
  let stop := {| exit_status := Exit 1; events := []; written := no_rows |} in
  if argc <? 7 then stop
  else if 8 <? argc then stop
  else if (argc =? 8) && rejects_flag W (arg argv 7) then stop
  else
    match load_model W (arg argv 1) with
    | None =>
        {| exit_status := Exit 1; events := [LoadModel (arg argv 1)];
           written := no_rows |}
    | Some E =>
        let dir := arg argv 6 in
        let ev :=
          [LoadModel (arg argv 1);
           OpenInput (arg argv 3); OpenInput (arg argv 4);
           OpenInput (arg argv 5); OpenInput (arg argv 2);
           OpenOutput (dir +:+ "/left_apo_jacobian.txt");
           OpenOutput (dir +:+ "/right_apo_jacobian.txt");
           OpenOutput (dir +:+ "/residual_force.txt");
           OpenOutput (dir +:+ "/net_internal_values.txt")] in
        let '(s, e) := frame_loop E (uninit_stack W) fuel (initial W E argv) in
        {| exit_status :=
             match e with
             | Finished => Exit 0
             | Failed Thrown => Exit 1
             | Failed Undefined => Crash
             | Unfinished => Running
             end;
           events := ev;
           written := out s |}
    end.

(** ** Well-formed input and models *)

(** The stream [s] is in a good state and its next tokens are the numbers
    [vs], followed by [rest]. *)
Definition carries (s : istream) (vs : list num) (rest : list token) : Prop :=
  failbit s = false /\ toks s = (Num <$> vs) ++ rest /\
  (vs ≠ [] -> eofbit s = false).

(** One time-aligned frame: the time tag and the payload of each stream. *)
Record FrameData := {
  grf_time : num;  grf_row : list num;
  state_time : num;  state_row : list num;
  acc_time : num;  acc_row : list num;
  dyn_time : num;  dyn_row : list num
}.

Definition sized (n : nat) (fr : FrameData) : Prop :=
  length (grf_row fr) = expectedGRFSize /\ length (state_row fr) = 2 * n /\
  length (acc_row fr) = n /\ length (dyn_row fr) = n.

(** The numbers a stream holds for a list of frames. *)
Definition rows_of (tag : FrameData -> num) (row : FrameData -> list num)
    (frs : list FrameData) : list num :=
  frs ≫= (fun fr => tag fr :: row fr).

(** The unit conversion of line 195 as a function of the index. *)
Definition converted (j : nat) (a : num) : num :=
  if (j <? 3) || (5 <? j) then deg2rad a else a.


(** The bodies the contact loop visits. *)
Definition visited (E : Engine) : list string :=
  take (numBodies E) (bodySet E).

(** A model the program is written for: its bodies fit the centrifugal
    buffer and have names, both feet are among them, realization succeeds,
    and every joint-space vector the engine returns has one entry per
    degree of freedom. *)
Record regular (E : Engine) : Prop := {
  bodies_fit : numBodies E <= centrifugalCapacity;
  bodies_named : numBodies E <= length (bodySet E);
  has_calcn_r : "calcn_r" ∈ visited E;
  has_calcn_l : "calcn_l" ∈ visited E;
  realizes : forall st, realize E st = true;
  size_M : forall st v,
    length v = numMobilities E ->
    length (multiplyByM E st v) = numMobilities E;
  size_JT : forall st F,
    length (multiplyBySystemJacobianTranspose E st F) = numMobilities E;
  size_FJT : forall st j p F,
    length (multiplyByFrameJacobianTranspose E st j p F) = numMobilities E
}.

(** What the engine is assumed to do at rest: the mass matrix and the
    Jacobian transposes map zero to zero, and no body carries a centrifugal
    force when all generalized velocities (the second half of the state)
    are zero. *)
Record linear (E : Engine) : Prop := {
  M_zero : forall st,
    multiplyByM E st (replicate (numMobilities E) zero)
    = replicate (numMobilities E) zero;
  JT_zero : forall st,
    multiplyBySystemJacobianTranspose E st
      (replicate centrifugalCapacity SpatialVec_0)
    = replicate (numMobilities E) zero;
  FJT_zero : forall st j p,
    multiplyByFrameJacobianTranspose E st j p SpatialVec_0
    = replicate (numMobilities E) zero;
  centrifugal_rest : forall st j,
    drop (numMobilities E) st = replicate (numMobilities E) zero ->
    getTotalCentrifugalForces E st j = SpatialVec_0
}.

(** The four streams hold the frames [frs], one after the other; the
    states stream holds nothing else. *)
Definition aligned (i : Inputs) (frs : list FrameData) : Prop :=
  (exists rest, carries (grfs_file i) (rows_of grf_time grf_row frs) rest) /\
  carries (states_file i) (rows_of state_time state_row frs) [] /\
  (exists rest,
     carries (accelerations_file i) (rows_of acc_time acc_row frs) rest) /\
  (exists rest, carries (dynamics_file i) (rows_of dyn_time dyn_row frs) rest).

(** The buffers have the sizes they are allocated with. *)
Definition allocated (n : nat) (b : Buffers) : Prop :=
  length (grfs b) = expectedGRFSize /\ length (states b) = 2 * n /\
  length (accelerations b) = n /\ length (dynamics b) = n.

(** A stream that can no longer reach end-of-input: it has failed, or is
    about to fail on a character that cannot belong to a number, and
    [eofbit] is not set. *)
Definition stuck (s : istream) : Prop :=
  eofbit s = false /\ (failbit s = true \/ exists r, toks s = Junk :: r).

(** A stuck states stream next to buffers of the allocated sizes: what the
    reads of a frame preserve, whatever the streams hold. *)
Definition stays (n : nat) (ib : Inputs * Buffers) : Prop :=
  stuck (states_file ib.1) /\ allocated n ib.2.

Definition is_num (t : token) : bool :=
  match t with Num _ => true | Junk | Broken _ => false end.

(** A stream of numbers only, each of them a double, whose [failbit] is set
    at end-of-input only. *)
Definition numeric (s : istream) : Prop :=
  forallb is_num (toks s) = true /\ (failbit s = true -> eofbit s = true).

(** The states stream is numeric and has at most [m] tokens left. *)
Definition within (m : nat) (ib : Inputs * Buffers) : Prop :=
  numeric (states_file ib.1) /\ length (toks (states_file ib.1)) <= m.

(** The body of index [j] has the name [name]. *)
Definition named (E : Engine) (name : string) (j : nat) : Prop :=
  bodySet E !! j = Some name.

(** The right contact torque of [c] was computed from the right wrench of
    the contact channels [g]. *)
Definition right_computed (E : Engine) (st g : list num) (c : Contact)
  : Prop :=
  exists j p, rightGRFTorques c
    = multiplyByFrameJacobianTranspose E st j p
        (groundRightMoment g, groundRightForce g).

Definition left_computed (E : Engine) (st g : list num) (c : Contact)
  : Prop :=
  exists j p, leftGRFTorques c
    = multiplyByFrameJacobianTranspose E st j p
        (groundLeftMoment g, groundLeftForce g).

(** Buffers of the allocated sizes, and rows of [n] entries. *)
Definition shaped (n : nat) (s : LoopState) : Prop :=
  allocated n (buf s) /\
  Forall (fun r => length r = n) (residualForce_file (out s)) /\
  Forall (fun r => length r = n) (internalForce_file (out s)).



(** ** A one-degree-of-freedom test model *)

(** Linear x component of a spatial force. *)
Definition force_x (F : SpatialVec) : num := F.2.1.1.

(** A slider of unit mass along x, without gravity, with bodies named
    [names]: the mass matrix is the identity, a Jacobian transpose picks the
    x components of the forces, and the centrifugal force of every body is
    the square of the velocity. *)
Definition slider (names : list string) : Engine :=
  {| numMobilities := 1;
     numBodies := length names;
     bodySet := names;
     realize := fun _ => true;
     multiplyByM := fun _ v => v;
     getBodyForces := fun _ => replicate (length names) SpatialVec_0;
     multiplyBySystemJacobianTranspose := fun _ F =>
       [foldr (fun f acc => add (force_x f) acc) zero F];
     getTotalCentrifugalForces := fun st _ =>
       (Vec3_0, (mul (at_ st 1) (at_ st 1), zero, zero));
     transformPosition := fun _ _ p _ => p;
     multiplyByFrameJacobianTranspose := fun _ _ _ F => [force_x F];
     calcFrameJacobian := fun _ _ _ =>
       [[zero]; [zero]; [zero]; [lit4]; [zero]; [zero]] |}.

Definition gait_names : list string :=
  ["ground"; "pelvis"; "femur_r"; "tibia_r"; "talus_r"; "calcn_r"; "toes_r";
   "femur_l"; "tibia_l"; "talus_l"; "calcn_l"; "toes_l"; "torso";
   "apo_back"; "apo_link_r"; "apo_link_l"; "apo_cuff_r"; "apo_cuff_l"].

(** The same bodies with the right foot under another name. *)
Definition renamed_names : list string :=
  ["ground"; "pelvis"; "femur_r"; "tibia_r"; "talus_r"; "heel_r"; "toes_r";
   "femur_l"; "tibia_l"; "talus_l"; "calcn_l"; "toes_l"; "torso";
   "apo_back"; "apo_link_r"; "apo_link_l"; "apo_cuff_r"; "apo_cuff_l"].

(** A freshly opened file holding [ts], ended by a newline. *)
Definition file_of (ts : list token) : istream :=
  {| toks := ts; tight := false; failbit := false; eofbit := false |}.

(** A world with one model and four input files, found under the names
    below; storage starts out as zero. *)
Definition world_of (E : Engine) (g s a d : list token) : World :=
  {| load_model := fun p => if String.eqb p "model.osim" then Some E else None;
     open_input := fun p =>
       if String.eqb p "grf.txt" then file_of g
       else if String.eqb p "states.txt" then file_of s
       else if String.eqb p "acc.txt" then file_of a
       else if String.eqb p "id.txt" then file_of d
       else {| toks := []; tight := false; failbit := true; eofbit := false |};
     rejects_flag := fun _ => false;
     uninit_time := zero;
     uninit_grfs := fun _ => zero;
     uninit_states := fun _ => zero;
     uninit_accelerations := fun _ => zero;
     uninit_dynamics := fun _ => zero;
     uninit_stack := fun _ _ => SpatialVec_0 |}.

Definition six_args : list string :=
  ["getJointSpaceForces"; "model.osim"; "grf.txt"; "states.txt"; "acc.txt";
   "id.txt"; "results"].

End Program.

(** ** Test data in binary64 *)

(** Contributions of one degree of freedom whose sums round: the measured
    torque is 2^53 and the gravity torque is 1. *)
Definition rounding_torques : Torques (num := float) :=
  {| inertiaTorques := [0%float];
     gravityTorques := [1%float];
     coriolisTorques := [0%float];
     contact := {| leftGRFTorques := [0%float]; rightGRFTorques := [0%float];
                   leftAPOJacobian := []; rightAPOJacobian := [] |} |}.

(** The same contributions in exact arithmetic. *)
Definition exact_torques : Torques (num := Qc) :=
  {| inertiaTorques := [Q2Qc 0];
     gravityTorques := [Q2Qc 1];
     coriolisTorques := [Q2Qc 0];
     contact := {| leftGRFTorques := [Q2Qc 0]; rightGRFTorques := [Q2Qc 0];
                   leftAPOJacobian := []; rightAPOJacobian := [] |} |}.

(** Contributions of two degrees of freedom. *)
Definition sample_torques : Torques (num := float) :=
  {| inertiaTorques := [2%float; 0.5%float];
     gravityTorques := [10%float; 3%float];
     coriolisTorques := [1%float; 0.25%float];
     contact := {| leftGRFTorques := [4%float; 8%float];
                   rightGRFTorques := [16%float; 32%float];
                   leftAPOJacobian := []; rightAPOJacobian := [] |} |}.

(** Three aligned frames for a model of one degree of freedom. *)
Definition grf_frame (t x : float) : list (token (num := float)) :=
  Num t :: (Num <$> replicate 18 x).

Definition grf_tokens : list (token (num := float)) :=
  grf_frame 0 0 ++ grf_frame 1 1 ++ grf_frame 2 2.

Definition state_tokens : list (token (num := float)) :=
  Num <$> [0; 0.5; 0;  1; 0.5; 3;  2; 0.75; 1]%float.

Definition acc_tokens : list (token (num := float)) :=
  Num <$> [0; 0;  1; 2;  2; 0]%float.

Definition dyn_tokens : list (token (num := float)) :=
  Num <$> [0; 0;  1; 7;  2; 0]%float.

Definition gait_world : World (num := float) :=
  world_of (slider gait_names) grf_tokens state_tokens acc_tokens dyn_tokens.

(** The same trial on the model whose right foot is not called [calcn_r]. *)
Definition renamed_world : World (num := float) :=
  world_of (slider renamed_names) grf_tokens state_tokens acc_tokens
    dyn_tokens.

(** The same trial with a states file that begins with a column header. *)
Definition header_world : World (num := float) :=
  world_of (slider gait_names) grf_tokens (Junk :: state_tokens) acc_tokens
    dyn_tokens.



(** The payload of one frame for a model of seven degrees of freedom,
    and buffers to read it into. *)
Definition units_acc : list float := [180; 90; 45; 1; 2; 3; 360]%float.
Definition units_dyn : list float := [1; 2; 3; 4; 5; 6; 7]%float.
Definition units_states : list float :=
  [1; 2; 3; 4; 5; 6; 7; 8; 9; 10; 11; 12; 13; 14]%float.

Definition units_inputs : Inputs (num := float) :=
  {| grfs_file := file_of (Num <$> replicate 18 0%float);
     states_file := file_of (Num <$> units_states);
     accelerations_file := file_of (Num <$> units_acc);
     dynamics_file := file_of (Num <$> units_dyn) |}.

Definition units_buffers : Buffers (num := float) :=
  {| time := 0%float; grfs := replicate 18 0%float;
     states := replicate 14 0%float; accelerations := replicate 7 0%float;
     dynamics := replicate 7 0%float |}.

(** ** The writers: lines 447-527 *)

(** The helper functions, on the text they send to a stream.  A stream is
    the sequence of insertions made into it: numbers, tabs, newlines and
    literal strings.  [Val x] is the insertion of the double [x]; how it is
    spelled is left to [operator<<] (six significant digits by default), so
    the text of a file does not determine [x]. *)
Module Text.

Section Writers.

Context {num : Type} `{Arith num}.

Inductive item :=
| Val (x : num)
| Tab
| Endl
| Str (s : string).

Definition stream := list item.

(** [nrow()], [ncol()] and [m[k][j]] of a matrix held as its rows. *)
Definition nrow (m : @Matrix num) : nat := length m.

Definition ncol (m : @Matrix num) : nat :=
  match m with
  | [] => 0
  | r :: _ => length r
  end.

Definition elt (m : @Matrix num) (k j : nat) : num := at_ (default [] (m !! k)) j.

(** Every row has [ncol] entries. *)
Definition rectangular (m : @Matrix num) : Prop :=
  Forall (fun r => length r = ncol m) m.

(** Lines 447-461.  The time is written once, before the first row. *)
Definition writeMatrix (file_name : stream) (time : num) (m : @Matrix num)
  : stream :=
  for_ 0 (nrow m)
    (fun k f =>
       for_ 0 (ncol m) (fun j f => (f ++ [Tab]) ++ [Val (elt m k j)]) f
       ++ [Endl])
    (file_name ++ [Val time]).

(** Lines 463-482. *)
Definition writeMatrixTimeless (file_name : stream) (m : @Matrix num) : stream :=
  for_ 0 (nrow m)
    (fun k f =>
       for_ 0 (ncol m)
         (fun j f =>
            if negb (j =? ncol m - 1)
            then (f ++ [Val (elt m k j)]) ++ [Tab]
            else f ++ [Val (elt m k j)])
         f
       ++ [Endl])
    file_name.

(** Lines 484-496. *)
Definition writeVector (file_name : stream) (time : num) (v : @Vector num)
  : stream :=
  for_ 0 (length v) (fun j f => (f ++ [Tab]) ++ [Val (at_ v j)])
    (file_name ++ [Val time])
  ++ [Endl].

(** Lines 498-513. *)
Definition writeVectorTimeless (file_name : stream) (v : @Vector num) : stream :=
  for_ 0 (length v)
    (fun j f =>
       if negb (j =? length v - 1)
       then (f ++ [Val (at_ v j)]) ++ [Tab]
       else f ++ [Val (at_ v j)])
    file_name
  ++ [Endl].

(** Lines 515-527, on what [std::cout] holds.  After the loop the function
    reads [vec[vec.size()-1]]; for a vector without entries that is index
    -1, outside the vector. *)
Definition printForceVector (cout : stream) (vec : @Vector num)
    (description : string) : result stream :=
  let c := cout ++ [Endl;
                    Str ("Joint-space force due to " +:+ description +:+ ":");
                    Endl] in
  let c := c ++ [Str "["] in
  let c := for_ 0 (length vec - 1)
             (fun j c => (c ++ [Val (at_ vec j)]) ++ [Str ", "]) c in
  match vec !! (length vec - 1), length vec with
  | Some last, S _ => OK (((c ++ [Val last]) ++ [Str "]"]) ++ [Endl])
  | _, _ => Fault Undefined
  end.

(** *** The table a text stands for *)

(** The values of one row, separated by tabs. *)
Fixpoint row_text (r : list num) : stream :=
  match r with
  | [] => []
  | x :: r' =>
      match r' with
      | [] => [Val x]
      | _ :: _ => Val x :: Tab :: row_text r'
      end
  end.

(** The text of a file of rows: every row ends with a newline. *)
Definition render (rows : @File num) : stream :=
  rows ≫= (fun r => row_text r ++ [Endl]).

End Writers.

End Text.

(** A Jacobian of two rows and a world whose states file cannot be
    opened. *)
Definition sample_matrix : Matrix (num := float) :=
  [[1; 2; 3]; [4; 5; 6]]%float.

Definition missing_states_args : list string :=
  ["getJointSpaceForces"; "model.osim"; "grf.txt"; "no_such_file.txt";
   "acc.txt"; "id.txt"; "results"].

(** The trial with a contact-force file that ends after the first frame. *)
Definition short_grf_world : World (num := float) :=
  world_of (slider gait_names) (grf_frame 0 5) state_tokens acc_tokens
    dyn_tokens.

(** The trial with an acceleration file that ends after the first frame,
    whose acceleration is 180 degrees. *)
Definition short_acc_world : World (num := float) :=
  world_of (slider gait_names) grf_tokens state_tokens
    (Num <$> [0; 180]%float) dyn_tokens.



(** A model without degrees of freedom: all bodies welded to the ground. *)
Definition welded : Engine (num := float) :=
  {| numMobilities := 0;
     numBodies := length gait_names;
     bodySet := gait_names;
     realize := fun _ => true;
     multiplyByM := fun _ v => v;
     getBodyForces := fun _ => replicate (length gait_names) SpatialVec_0;
     multiplyBySystemJacobianTranspose := fun _ _ => [];
     getTotalCentrifugalForces := fun _ _ => SpatialVec_0;
     transformPosition := fun _ _ p _ => p;
     multiplyByFrameJacobianTranspose := fun _ _ _ _ => [];
     calcFrameJacobian := fun _ _ _ => replicate 6 [] |}.

(** A freshly opened file holding [ts], with nothing after the last token. *)
Definition tight_file_of (ts : list (token (num := float)))
  : istream (num := float) :=
  {| toks := ts; tight := true; failbit := false; eofbit := false |}.

(** Three aligned frames for the welded model; the states file is the three
    time tags [0 1 2] and ends with the last digit. *)
Definition welded_world : World (num := float) :=
  {| load_model := fun p =>
       if String.eqb p "model.osim" then Some welded else None;
     open_input := fun p =>
       if String.eqb p "grf.txt" then file_of grf_tokens
       else tight_file_of (Num <$> [0; 1; 2]%float);
     rejects_flag := fun _ => false;
     uninit_time := 0%float;
     uninit_grfs := fun _ => 0%float;
     uninit_states := fun _ => 0%float;
     uninit_accelerations := fun _ => 0%float;
     uninit_dynamics := fun _ => 0%float;
     uninit_stack := fun _ _ => SpatialVec_0 |}.

Definition welded_frames : list (FrameData (num := float)) :=
  [ {| grf_time := 0; grf_row := replicate 18 0;
       state_time := 0; state_row := [];
       acc_time := 0; acc_row := []; dyn_time := 0; dyn_row := [] |};
    {| grf_time := 1; grf_row := replicate 18 1;
       state_time := 1; state_row := [];
       acc_time := 1; acc_row := []; dyn_time := 1; dyn_row := [] |};
    {| grf_time := 2; grf_row := replicate 18 2;
       state_time := 2; state_row := [];
       acc_time := 2; acc_row := []; dyn_time := 2; dyn_row := [] |}
  ]%float.

(** * Properties *)

Section Sums.

Context {num : Type} `{Arith num}.

Lemma bind_OK {A B} (r : result A) (k : A -> result B) (b : B) :
  r ≫= k = OK b -> exists a, r = OK a /\ k a = OK b.
Proof. destruct r as [a|f]; [eauto | discriminate]. Qed.

Lemma vzip_same_length (f : num -> num -> num) (u v : Vector) :
  length u = length v -> vzip f u v = OK (zip_with f u v).
Proof.
  revert v. induction u as [|a u IH]; intros [|b v] Hl; simpl in *;
    try discriminate; [reflexivity|].
  rewrite IH by lia. reflexivity.
Qed.

Lemma vzip_OK_length (f : num -> num -> num) (u v w : Vector) :
  vzip f u v = OK w -> length u = length v /\ length w = length u.
Proof.
  revert v w. induction u as [|a u IH]; intros [|b v] w Hz; simpl in *;
    try discriminate.
  - injection Hz as <-. split; reflexivity.
  - apply bind_OK in Hz as (w' & Hw' & Hz). injection Hz as <-.
    apply IH in Hw' as [Hu Hw]. simpl. split; congruence.
Qed.

Lemma vzip_fault (f : num -> num -> num) (u v : Vector) (e : fault) :
  vzip f u v = Fault e -> e = Undefined.
Proof.
  revert v. induction u as [|a u IH]; intros [|b v]; simpl;
    try congruence.
  destruct (vzip f u v) as [w|e'] eqn:Hz; simpl; [discriminate|].
  intros [= <-]. eapply IH, Hz.
Qed.

Lemma at_zip_with (f : num -> num -> num) (u v : Vector) (j : nat) :
  j < length u -> j < length v ->
  at_ (zip_with f u v) j = f (at_ u j) (at_ v j).
Proof.
  intros Hu Hv. unfold at_.
  destruct (lookup_lt_is_Some_2 u j Hu) as [a Ha].
  destruct (lookup_lt_is_Some_2 v j Hv) as [b Hb].
  rewrite lookup_zip_with, Ha, Hb. reflexivity.
Qed.

End Sums.

Section Signs.

Context {num : Type} `{Arith num}.

Lemma residualForce_sized (t : Torques) (dyn : Vector) (n : nat) :
  length (gravityTorques t) = n -> length (inertiaTorques t) = n ->
  length dyn = n -> length (coriolisTorques t) = n ->
  length (rightGRFTorques (contact t)) = n ->
  length (leftGRFTorques (contact t)) = n ->
  residualForce t dyn
  = OK (zip_with add
          (zip_with add
             (zip_with sub
                (zip_with add
                   (zip_with sub (gravityTorques t) (inertiaTorques t)) dyn)
                (coriolisTorques t))
             (rightGRFTorques (contact t)))
          (leftGRFTorques (contact t))).
Proof.
  intros HG HI HD HC HR HL. unfold residualForce, vadd, vsub.
  repeat (rewrite vzip_same_length
            by (rewrite ?length_zip_with; lia); simpl).
  reflexivity.
Qed.

Lemma internalForce_sized (t : Torques) (n : nat) :
  length (gravityTorques t) = n -> length (inertiaTorques t) = n ->
  length (coriolisTorques t) = n ->
  length (rightGRFTorques (contact t)) = n ->
  length (leftGRFTorques (contact t)) = n ->
  internalForce t
  = OK (zip_with sub
          (zip_with sub
             (zip_with add
                (zip_with sub (inertiaTorques t) (gravityTorques t))
                (coriolisTorques t))
             (rightGRFTorques (contact t)))
          (leftGRFTorques (contact t))).
Proof.
  intros HG HI HC HR HL. unfold internalForce, vadd, vsub.
  repeat (rewrite vzip_same_length
            by (rewrite ?length_zip_with; lia); simpl).
  reflexivity.
Qed.

(** C1.  When the five contributions and the measured torque of a frame
    have [n] entries each, the block at lines 380-394 appends one row to the
    residual file and one to the internal-force file, and entry [j] of
    these rows is
    [gravity - inertia + measured - coriolis + right + left] and
    [inertia - gravity + coriolis - right - left], evaluated from left to
    right. *)
Theorem write_frame_signs (t : Torques) (dyn : Vector) (f : Files) (n : nat) :
  length (gravityTorques t) = n -> length (inertiaTorques t) = n ->
  length dyn = n -> length (coriolisTorques t) = n ->
  length (rightGRFTorques (contact t)) = n ->
  length (leftGRFTorques (contact t)) = n ->
  exists res int,
    (write_frame t dyn f).2 = None /\
    residualForce_file (write_frame t dyn f).1
      = residualForce_file f ++ [res] /\
    internalForce_file (write_frame t dyn f).1
      = internalForce_file f ++ [int] /\
    length res = n /\ length int = n /\
    forall j, j < n ->
      at_ res j
      = add (add (sub (add (sub (at_ (gravityTorques t) j)
                                (at_ (inertiaTorques t) j))
                           (at_ dyn j))
                      (at_ (coriolisTorques t) j))
                 (at_ (rightGRFTorques (contact t)) j))
            (at_ (leftGRFTorques (contact t)) j) /\
      at_ int j
      = sub (sub (add (sub (at_ (inertiaTorques t) j)
                           (at_ (gravityTorques t) j))
                      (at_ (coriolisTorques t) j))
                 (at_ (rightGRFTorques (contact t)) j))
            (at_ (leftGRFTorques (contact t)) j).
Proof.
  intros HG HI HD HC HR HL.
  pose proof (residualForce_sized t dyn n HG HI HD HC HR HL) as Hres.
  pose proof (internalForce_sized t n HG HI HC HR HL) as Hint.
  unfold write_frame. rewrite Hres, Hint. simpl.
  eexists _, _. do 2 (split; [reflexivity|]).
  split; [reflexivity|].
  split; [rewrite !length_zip_with; lia|].
  split; [rewrite !length_zip_with; lia|].
  intros j Hj.
  split; repeat (rewrite at_zip_with by (rewrite ?length_zip_with; lia));
    reflexivity.
Qed.

End Signs.

Lemma write_frame_signs_witness :
  exists res int : list float,
    (write_frame sample_torques [1; 2]%float no_rows).2 = None /\
    residualForce_file (write_frame sample_torques [1; 2]%float no_rows).1
      = [] ++ [res] /\
    internalForce_file (write_frame sample_torques [1; 2]%float no_rows).1
      = [] ++ [int] /\
    length res = 2 /\ length int = 2 /\
    forall j, j < 2 ->
      at_ res j
      = add (add (sub (add (sub (at_ (gravityTorques sample_torques) j)
                                (at_ (inertiaTorques sample_torques) j))
                           (at_ [1; 2]%float j))
                      (at_ (coriolisTorques sample_torques) j))
                 (at_ (rightGRFTorques (contact sample_torques)) j))
            (at_ (leftGRFTorques (contact sample_torques)) j) /\
      at_ int j
      = sub (sub (add (sub (at_ (inertiaTorques sample_torques) j)
                           (at_ (gravityTorques sample_torques) j))
                      (at_ (coriolisTorques sample_torques) j))
                 (at_ (rightGRFTorques (contact sample_torques)) j))
            (at_ (leftGRFTorques (contact sample_torques)) j).
Proof.
  apply (write_frame_signs sample_torques [1; 2]%float no_rows 2);
    reflexivity.
Defined.


(** The rows of [sample_torques], evaluated. *)
Example sample_rows :
  residualForce sample_torques [1; 2]%float = OK [28; 44.25]%float /\
  internalForce sample_torques = OK [-27; -42.25]%float.
Proof. split; reflexivity. Qed.

(** ** The identity between the two rows *)

(** C2, as stated, fails in binary64.  With gravity torque 1, measured
    torque 2^53 and every other contribution 0, the residual rounds to 2^53
    and the internal force is -1, but [-residual + measured] is 0. *)
Lemma identity_fails_in_binary64 :
  exists res int : list float,
    residualForce rounding_torques [0x1p53%float] = OK res /\
    internalForce rounding_torques = OK int /\
    at_ int 0 <> add (opp (at_ res 0)) (at_ [0x1p53%float] 0).
Proof.
  exists [0x1p53%float], [(-1)%float].
  split; [reflexivity|]. split; [reflexivity|].
  intros Heq.
  apply (f_equal (fun x : float => PrimFloat.ltb x 0)) in Heq.
  vm_compute in Heq. discriminate.
Qed.

Section Exact.

Context {num : Type} `{Arith num}.
Variable one : num.
Hypothesis num_ring : ring_theory zero one add mul sub opp eq.

Add Ring num_is_ring : num_ring.

(** C2, amended.  When the scalar arithmetic is exact (it obeys the ring
    laws), the two rows of a frame whose six vectors have [n] entries each
    satisfy [internal = -residual + measured] entry by entry. *)
Theorem identity_in_exact_arithmetic (t : Torques) (dyn : Vector) (n : nat) :
  length (gravityTorques t) = n -> length (inertiaTorques t) = n ->
  length dyn = n -> length (coriolisTorques t) = n ->
  length (rightGRFTorques (contact t)) = n ->
  length (leftGRFTorques (contact t)) = n ->
  exists res int,
    residualForce t dyn = OK res /\ internalForce t = OK int /\
    length res = n /\ length int = n /\
    forall j, j < n -> at_ int j = add (opp (at_ res j)) (at_ dyn j).
Proof using num_ring.
  intros HG HI HD HC HR HL.
  rewrite (residualForce_sized t dyn n), (internalForce_sized t n) by done.
  eexists _, _. do 2 (split; [reflexivity|]).
  split; [rewrite !length_zip_with; lia|].
  split; [rewrite !length_zip_with; lia|].
  intros j Hj.
  repeat (rewrite at_zip_with by (rewrite ?length_zip_with; lia)).
  ring.
Qed.

End Exact.

Lemma identity_in_exact_arithmetic_witness :
  exists res int : list Qc,
    residualForce exact_torques [Q2Qc 9007199254740992] = OK res /\
    internalForce exact_torques = OK int /\
    length res = 1 /\ length int = 1 /\
    forall j, j < 1 ->
      at_ int j = add (opp (at_ res j)) (at_ [Q2Qc 9007199254740992] j).
Proof.
  apply (@identity_in_exact_arithmetic Qc Qc_arith (Q2Qc 1) Qcrt exact_torques
           [Q2Qc 9007199254740992] 1); reflexivity.
Defined.

(** ** Command line *)

Section CommandLine.

Context {num : Type} `{Arith num}.

(** C9.  With the program name and five arguments, [main] returns 1 before
    any model is loaded and before any file, input or output, is opened. *)
Theorem five_arguments_exit_1 (W : World) (fuel : nat) (argv : list string) :
  length argv = 6 ->
  main W fuel argv
  = {| exit_status := Exit 1; events := []; written := no_rows |}.
Proof. intros Hargc. unfold main. rewrite Hargc. reflexivity. Qed.

End CommandLine.

Lemma five_arguments_exit_1_witness :
  main (world_of (slider gait_names) [] [] [] [] : World (num := float)) 5
    ["getJointSpaceForces"; "model.osim"; "grf.txt"; "states.txt";
     "acc.txt"; "id.txt"]
  = {| exit_status := Exit 1; events := []; written := no_rows |}.
Proof. apply five_arguments_exit_1. reflexivity. Defined.

(** ** The centrifugal-force buffer *)

Section Centrifugal.

Context {num : Type} `{Arith num}.

Lemma for_S {S : Type} (lo len : nat) (body : nat -> S -> S) (s : S) :
  for_ lo (Datatypes.S len) body s = for_ (Datatypes.S lo) len body (body lo s).
Proof. reflexivity. Qed.

Lemma store_length (j : nat) (v : @SpatialVec num) (bf : list (@SpatialVec num) * bool) :
  length (store_centrifugal j v bf).1 = length bf.1.
Proof.
  unfold store_centrifugal. destruct (j <? centrifugalCapacity); simpl;
    [apply length_insert | reflexivity].
Qed.

Lemma store_inside (j : nat) (v : @SpatialVec num) (bf : list (@SpatialVec num) * bool) :
  (store_centrifugal j v bf).2 = true
  <-> bf.2 = true /\ j < centrifugalCapacity.
Proof.
  unfold store_centrifugal.
  destruct (Nat.ltb_spec j centrifugalCapacity); simpl; split;
    try tauto; try discriminate.
  intros [_ ?]. lia.
Qed.

Lemma store_lookup_eq (j : nat) (v : @SpatialVec num)
    (bf : list (@SpatialVec num) * bool) :
  j < centrifugalCapacity -> j < length bf.1 ->
  (store_centrifugal j v bf).1 !! j = Some v.
Proof.
  intros Hj Hl. unfold store_centrifugal.
  destruct (Nat.ltb_spec j centrifugalCapacity); [|lia].
  simpl. by apply list_lookup_insert_eq.
Qed.

Lemma store_lookup_ne (i j : nat) (v : @SpatialVec num)
    (bf : list (@SpatialVec num) * bool) :
  i <> j -> (store_centrifugal j v bf).1 !! i = bf.1 !! i.
Proof.
  intros Hne. unfold store_centrifugal.
  destruct (j <? centrifugalCapacity); simpl; [|reflexivity].
  apply list_lookup_insert_ne. congruence.
Qed.

(** The state of the buffer after the stores at [lo], ..., [lo + len - 1]. *)
Lemma stores_spec (g : nat -> @SpatialVec num) (len lo : nat)
    (bf : list (@SpatialVec num) * bool) :
  let r := for_ lo len (fun j => store_centrifugal j (g j)) bf in
  length r.1 = length bf.1 /\
  (r.2 = true <-> bf.2 = true /\ (len = 0 \/ lo + len <= centrifugalCapacity)) /\
  (forall j, lo <= j < lo + len -> j < centrifugalCapacity ->
             j < length bf.1 -> r.1 !! j = Some (g j)) /\
  (forall j, j < lo \/ lo + len <= j -> r.1 !! j = bf.1 !! j).
Proof.
  revert lo bf. induction len as [|len IH]; intros lo bf.
  - simpl. repeat split; try tauto; intros; lia.
  - rewrite for_S. cbv zeta.
    destruct (IH (S lo) (store_centrifugal lo (g lo) bf))
      as (Hlen & Hin & Hset & Hkeep).
    rewrite store_length in Hlen, Hset. rewrite store_inside in Hin.
    split; [exact Hlen|]. split; [|split].
    + rewrite Hin. split.
      * intros [[Hb Hlo] Hc]. split; [exact Hb|]. right. lia.
      * intros [Hb [?|Hc]]; [lia|]. split; [split; [exact Hb|lia]|].
        destruct len; [by left | right; lia].
    + intros j Hj Hcap Hjl. destruct (decide (j = lo)) as [->|Hne].
      * rewrite Hkeep by lia. by apply store_lookup_eq.
      * apply Hset; lia.
    + intros j Hj. rewrite Hkeep by lia. apply store_lookup_ne. lia.
Qed.

Lemma length_uninit_centrifugal (stack : nat -> nat -> @SpatialVec num) (k : nat) :
  length (uninit_centrifugal stack k) = centrifugalCapacity.
Proof. unfold uninit_centrifugal. by rewrite length_fmap, length_seq. Qed.

(** The buffer handed to the Jacobian transpose, entry by entry. *)
Lemma totalCentrifugalForces_spec (E : Engine) (st : list num)
    (u : list (@SpatialVec num)) :
  length u = centrifugalCapacity ->
  let bf := totalCentrifugalForces E st u in
  length bf.1 = centrifugalCapacity /\
  (bf.2 = true <-> numBodies E <= centrifugalCapacity) /\
  bf.1 !! 0 = Some SpatialVec_0 /\
  (forall j, 1 <= j < numBodies E -> j < centrifugalCapacity ->
             bf.1 !! j = Some (getTotalCentrifugalForces E st j)) /\
  (forall j, 1 <= j -> numBodies E <= j -> bf.1 !! j = u !! j).
Proof.
  intros Hu. unfold totalCentrifugalForces. cbv zeta.
  destruct (stores_spec (getTotalCentrifugalForces E st) (numBodies E - 1) 1
              (store_centrifugal 0 SpatialVec_0 (u, true)))
    as (Hlen & Hin & Hset & Hkeep).
  rewrite store_length in Hlen, Hset. rewrite store_inside in Hin.
  simpl in Hlen, Hin, Hset. unfold centrifugalCapacity in *.
  split; [lia|]. split; [|split; [|split]].
  - rewrite Hin. split; [intros [_ ?]; lia|].
    intros ?. split; [split; [done|lia]|]. lia.
  - rewrite Hkeep by lia. apply store_lookup_eq; simpl;
      unfold centrifugalCapacity; lia.
  - intros j Hj Hj18. apply Hset; lia.
  - intros j Hj Hnb. rewrite Hkeep by lia. apply store_lookup_ne. lia.
Qed.

(** C10.  Whatever the number of bodies, the centrifugal-force buffer holds
    18 spatial vectors when the loop over the bodies is done; every write
    of that loop was inside the buffer exactly when the model has at most
    18 bodies, and then the 18 entries are what the Jacobian transpose is
    applied to. *)
Theorem centrifugal_buffer_capacity (E : Engine) (st : list num)
    (stack : nat -> nat -> @SpatialVec num) (k : nat) :
  let bf := totalCentrifugalForces E st (uninit_centrifugal stack k) in
  length bf.1 = 18 /\
  (bf.2 = true <-> numBodies E <= 18) /\
  coriolis E st (uninit_centrifugal stack k)
  = if decide (numBodies E <= 18)
    then OK (multiplyBySystemJacobianTranspose E st bf.1)
    else Fault Undefined.
Proof.
  cbv zeta.
  destruct (totalCentrifugalForces_spec E st (uninit_centrifugal stack k)
              (length_uninit_centrifugal stack k)) as (Hlen & Hin & _).
  unfold centrifugalCapacity in *.
  split; [exact Hlen|]. split; [exact Hin|].
  unfold coriolis.
  destruct ((totalCentrifugalForces E st (uninit_centrifugal stack k)).2);
    case_decide; try reflexivity.
  - exfalso. apply H0, Hin. reflexivity.
  - apply Hin in H0. discriminate.
Qed.

End Centrifugal.

(** Seventeen bodies moving at velocity 3: the Coriolis torque is 17 * 9. *)
Example coriolis_of_slider :
  coriolis (slider gait_names) [0.5; 3]%float
    (uninit_centrifugal (fun _ _ => SpatialVec_0) 1)
  = OK [153%float].
Proof. reflexivity. Qed.

(** ** The loop over the bodies *)

Section Bodies.

Context {num : Type} `{Arith num}.

Variables (E : @Engine num) (st g : list num).

(** One body: no fault when the body has a name; an object is replaced
    only at a body of its name. *)
Lemma contact_at_spec (j : nat) (c : Contact) :
  j < length (bodySet E) ->
  exists c', contact_at E st g j c = OK c' /\
    (~ named E "calcn_r" j -> rightGRFTorques c' = rightGRFTorques c) /\
    (~ named E "calcn_l" j -> leftGRFTorques c' = leftGRFTorques c) /\
    (~ named E "femur_r" j -> rightAPOJacobian c' = rightAPOJacobian c) /\
    (~ named E "femur_l" j -> leftAPOJacobian c' = leftAPOJacobian c) /\
    (named E "calcn_r" j \/ right_computed E st g c -> right_computed E st g c') /\
    (named E "calcn_l" j \/ left_computed E st g c -> left_computed E st g c').
Proof.
  intros Hj. unfold contact_at, named, right_computed, left_computed.
  destruct (lookup_lt_is_Some_2 _ _ Hj) as [name ->].
  destruct (String.eqb_spec name "calcn_r") as [->|Hr].
  { eexists. split; [reflexivity|]. simpl.
    repeat split; try done; eauto.
    intros [[=]|Hc]; exact Hc. }
  destruct (String.eqb_spec name "calcn_l") as [->|Hl].
  { eexists. split; [reflexivity|]. simpl.
    repeat split; try done; eauto.
    intros [[=]|Hc]; exact Hc. }
  destruct (String.eqb_spec name "femur_r") as [->|Hfr].
  { eexists. split; [reflexivity|]. simpl.
    repeat split; try done; intros [[=]|Hc]; exact Hc. }
  destruct (String.eqb_spec name "femur_l") as [->|Hfl].
  { eexists. split; [reflexivity|]. simpl.
    repeat split; try done; intros [[=]|Hc]; exact Hc. }
  exists c. split; [reflexivity|].
  repeat split; try done; intros [[=]|Hc]; try exact Hc; congruence.
Qed.

Lemma for_r_S {S : Type} (lo len : nat) (body : nat -> S -> result S) (s : S) :
  for_r lo (Datatypes.S len) body s
  = foldl (fun r j => r ≫= body j) (body lo s) (seq (Datatypes.S lo) len).
Proof. reflexivity. Qed.

(** The bodies [lo], ..., [lo + len - 1]. *)
Lemma contacts_from (len lo : nat) (c : Contact) :
  lo + len <= length (bodySet E) ->
  exists c', for_r lo len (contact_at E st g) c = OK c' /\
    ((forall j, lo <= j < lo + len -> ~ named E "calcn_r" j) ->
     rightGRFTorques c' = rightGRFTorques c) /\
    ((forall j, lo <= j < lo + len -> ~ named E "calcn_l" j) ->
     leftGRFTorques c' = leftGRFTorques c) /\
    ((forall j, lo <= j < lo + len -> ~ named E "femur_r" j) ->
     rightAPOJacobian c' = rightAPOJacobian c) /\
    ((forall j, lo <= j < lo + len -> ~ named E "femur_l" j) ->
     leftAPOJacobian c' = leftAPOJacobian c) /\
    ((exists j, lo <= j < lo + len /\ named E "calcn_r" j) \/ right_computed E st g c
     -> right_computed E st g c') /\
    ((exists j, lo <= j < lo + len /\ named E "calcn_l" j) \/ left_computed E st g c
     -> left_computed E st g c').
Proof.
  revert lo c. induction len as [|len IH]; intros lo c Hlen.
  - exists c. split; [reflexivity|].
    repeat split; try done; intros [(j & Hj & _)|Hc]; (lia || exact Hc).
  - rewrite for_r_S.
    destruct (contact_at_spec lo c) as (c1 & -> & R1 & L1 & FR1 & FL1 & PR1 & PL1);
      [lia|].
    destruct (IH (S lo) c1) as (c' & Hc' & R & L & FR & FL & PR & PL); [lia|].
    exists c'. split; [exact Hc'|].
    split; [|split; [|split; [|split; [|split]]]].
    + intros Hno. rewrite R, R1; [done| |]; [apply Hno; lia|].
      intros j Hj. apply Hno. lia.
    + intros Hno. rewrite L, L1; [done| |]; [apply Hno; lia|].
      intros j Hj. apply Hno. lia.
    + intros Hno. rewrite FR, FR1; [done| |]; [apply Hno; lia|].
      intros j Hj. apply Hno. lia.
    + intros Hno. rewrite FL, FL1; [done| |]; [apply Hno; lia|].
      intros j Hj. apply Hno. lia.
    + intros [(j & Hj & Hn)|Hc]; apply PR.
      * destruct (decide (j = lo)) as [->|Hne].
        -- right. apply PR1. by left.
        -- left. exists j. split; [lia|exact Hn].
      * right. apply PR1. by right.
    + intros [(j & Hj & Hn)|Hc]; apply PL.
      * destruct (decide (j = lo)) as [->|Hne].
        -- right. apply PL1. by left.
        -- left. exists j. split; [lia|exact Hn].
      * right. apply PL1. by right.
Qed.

Lemma not_visited (name : string) :
  name ∉ visited E -> forall j, 0 <= j < 0 + numBodies E -> ~ named E name j.
Proof.
  intros Hno j Hj Hn. apply Hno. unfold visited.
  apply list_elem_of_lookup. exists j.
  rewrite lookup_take_lt by lia. exact Hn.
Qed.

Lemma is_visited (name : string) :
  name ∈ visited E -> exists j, 0 <= j < 0 + numBodies E /\ named E name j.
Proof.
  unfold visited. intros (j & Hj)%list_elem_of_lookup.
  apply lookup_take_Some in Hj as [Hn Hlt].
  exists j. split; [lia|exact Hn].
Qed.

(** The whole loop. *)
Lemma contacts_spec :
  numBodies E <= length (bodySet E) ->
  exists c, contacts E st g = OK c /\
    ("calcn_r" ∉ visited E -> rightGRFTorques c = []) /\
    ("calcn_l" ∉ visited E -> leftGRFTorques c = []) /\
    ("femur_r" ∉ visited E -> rightAPOJacobian c = []) /\
    ("femur_l" ∉ visited E -> leftAPOJacobian c = []) /\
    ("calcn_r" ∈ visited E -> right_computed E st g c) /\
    ("calcn_l" ∈ visited E -> left_computed E st g c).
Proof.
  intros Hnamed. unfold contacts.
  destruct (contacts_from (numBodies E) 0 no_contact)
    as (c & Hc & R & L & FR & FL & PR & PL); [lia|].
  exists c. split; [exact Hc|].
  repeat split.
  - intros Hno. rewrite R; [done|]. by apply not_visited.
  - intros Hno. rewrite L; [done|]. by apply not_visited.
  - intros Hno. rewrite FR; [done|]. by apply not_visited.
  - intros Hno. rewrite FL; [done|]. by apply not_visited.
  - intros Hin. apply PR. left. by apply is_visited.
  - intros Hin. apply PL. left. by apply is_visited.
Qed.

End Bodies.

(** ** Missing bodies *)

Section Missing.

Context {num : Type} `{Arith num}.

Lemma residualForce_lengths (t : Torques) (dyn res : Vector) :
  residualForce t dyn = OK res ->
  length (rightGRFTorques (contact t)) = length (inertiaTorques t) /\
  length (leftGRFTorques (contact t)) = length (inertiaTorques t).
Proof.
  unfold residualForce, vadd, vsub. intros Hres.
  apply bind_OK in Hres as (r1 & H1 & Hres).
  apply bind_OK in Hres as (r2 & H2 & Hres).
  apply bind_OK in Hres as (r3 & H3 & Hres).
  apply bind_OK in Hres as (r4 & H4 & H5).
  apply vzip_OK_length in H1, H2, H3, H4, H5. lia.
Qed.

Lemma residualForce_fault (t : Torques) (dyn : Vector) (e : fault) :
  residualForce t dyn = Fault e -> e = Undefined.
Proof.
  unfold residualForce, vadd, vsub.
  repeat match goal with
         | |- context [vzip ?f ?u ?v] =>
             let Hz := fresh "Hz" in
             destruct (vzip f u v) eqn:Hz; simpl;
             [| intros [= <-]; exact (vzip_fault _ _ _ _ Hz)]
         end.
  discriminate.
Qed.

(** An empty contact torque cannot be added to contributions that have
    entries. *)
Lemma empty_contact_faults (t : Torques) (dyn : Vector) :
  rightGRFTorques (contact t) = [] \/ leftGRFTorques (contact t) = [] ->
  inertiaTorques t <> [] ->
  residualForce t dyn = Fault Undefined.
Proof.
  intros Hempty Hne.
  destruct (residualForce t dyn) as [res|e] eqn:Hres.
  - apply residualForce_lengths in Hres as [HR HL].
    destruct (inertiaTorques t); [done|].
    destruct Hempty as [Hr|Hl];
      [rewrite Hr in HR | rewrite Hl in HL]; discriminate.
  - f_equal. eapply residualForce_fault, Hres.
Qed.

(** C7, amended.  The loop over the bodies never faults on a model whose
    visited bodies all have names, whichever names they are.  An object
    whose body name is missing is never assigned: it is the empty vector or
    matrix it was declared as in that frame, not a vector of [n] zeros.  An
    empty Jacobian adds no row to its file; an empty contact torque cannot
    enter the sums of a frame whose other contributions have entries, and
    then neither the residual nor the internal-force row is written. *)
Theorem missing_body_leaves_empty_object (E : @Engine num) (st g : list num) :
  numBodies E <= length (bodySet E) ->
  exists c, contacts E st g = OK c /\
    ("calcn_r" ∉ visited E -> rightGRFTorques c = []) /\
    ("calcn_l" ∉ visited E -> leftGRFTorques c = []) /\
    ("femur_r" ∉ visited E -> rightAPOJacobian c = []) /\
    ("femur_l" ∉ visited E -> leftAPOJacobian c = []) /\
    forall (t : Torques) (dyn : Vector) (f : Files),
      contact t = c ->
      ("femur_r" ∉ visited E ->
       rightAPOJacobian_file (write_frame t dyn f).1
       = rightAPOJacobian_file f) /\
      ("femur_l" ∉ visited E ->
       leftAPOJacobian_file (write_frame t dyn f).1
       = leftAPOJacobian_file f) /\
      ("calcn_r" ∉ visited E \/ "calcn_l" ∉ visited E ->
       inertiaTorques t <> [] ->
       (write_frame t dyn f).2 = Some Undefined /\
       residualForce_file (write_frame t dyn f).1 = residualForce_file f /\
       internalForce_file (write_frame t dyn f).1 = internalForce_file f).
Proof.
  intros Hnamed.
  destruct (contacts_spec E st g Hnamed) as (c & Hc & R & L & FR & FL & _).
  exists c. split; [exact Hc|]. do 4 (split; [done|]).
  intros t dyn f <-. split; [|split].
  - intros Hno. unfold write_frame, writeMatrixTimeless.
    rewrite (FR Hno), app_nil_r.
    destruct (residualForce t dyn); [destruct (internalForce t)|]; done.
  - intros Hno. unfold write_frame, writeMatrixTimeless.
    rewrite (FL Hno), app_nil_r.
    destruct (residualForce t dyn); [destruct (internalForce t)|]; done.
  - intros Hno Hne. unfold write_frame.
    rewrite empty_contact_faults; [done| |exact Hne].
    destruct Hno as [Hno|Hno]; [left; exact (R Hno)|right; exact (L Hno)].
Qed.

End Missing.

Lemma renamed_model_has_no_calcn_r :
  "calcn_r" ∉ visited (slider (num := float) renamed_names).
Proof. apply (bool_decide_unpack _). by vm_compute. Qed.

Lemma missing_body_leaves_empty_object_witness :
  exists c, contacts (slider renamed_names) [0.5; 3]%float
              (replicate 18 1%float) = OK c /\
    ("calcn_r" ∉ visited (slider (num := float) renamed_names) ->
     rightGRFTorques c = []) /\
    ("calcn_l" ∉ visited (slider (num := float) renamed_names) ->
     leftGRFTorques c = []) /\
    ("femur_r" ∉ visited (slider (num := float) renamed_names) ->
     rightAPOJacobian c = []) /\
    ("femur_l" ∉ visited (slider (num := float) renamed_names) ->
     leftAPOJacobian c = []) /\
    forall (t : Torques) (dyn : Vector) (f : Files),
      contact t = c ->
      ("femur_r" ∉ visited (slider (num := float) renamed_names) ->
       rightAPOJacobian_file (write_frame t dyn f).1
       = rightAPOJacobian_file f) /\
      ("femur_l" ∉ visited (slider (num := float) renamed_names) ->
       leftAPOJacobian_file (write_frame t dyn f).1
       = leftAPOJacobian_file f) /\
      ("calcn_r" ∉ visited (slider (num := float) renamed_names) \/
       "calcn_l" ∉ visited (slider (num := float) renamed_names) ->
       inertiaTorques t <> [] ->
       (write_frame t dyn f).2 = Some Undefined /\
       residualForce_file (write_frame t dyn f).1 = residualForce_file f /\
       internalForce_file (write_frame t dyn f).1 = internalForce_file f).
Proof.
  apply (missing_body_leaves_empty_object (slider renamed_names)).
  simpl. lia.
Defined.

(** C7, as stated, fails.  On the model without [calcn_r] the right contact
    torque of a frame is the empty vector, which is not the zero vector of
    one entry; the run on three frames stops at the first sum and leaves
    the residual and internal-force files without a row. *)
Lemma missing_body_is_not_zero_filled :
  ("calcn_r" ∉ visited (slider (num := float) renamed_names)) /\
  (exists c, contacts (slider renamed_names) [0.5; 3]%float
               (replicate 18 1%float) = OK c /\
     rightGRFTorques c = [] /\
     rightGRFTorques c
     <> replicate (numMobilities (slider (num := float) renamed_names)) zero) /\
  exit_status (main renamed_world 10 six_args) <> Exit 0 /\
  residualForce_file (written (main renamed_world 10 six_args)) = [] /\
  internalForce_file (written (main renamed_world 10 six_args)) = [].
Proof.
  split; [exact renamed_model_has_no_calcn_r|].
  split; [|by vm_compute].
  eexists. split; [by vm_compute|]. split; [reflexivity|]. discriminate.
Qed.

(** ** A frame at rest *)

Section Rest.

Context {num : Type} `{Arith num}.




End Rest.

Lemma slider_regular : regular (slider (num := float) gait_names).
Proof.
  split; simpl; try done.
  all: unfold centrifugalCapacity; try lia.
  - apply (bool_decide_unpack _). by vm_compute.
  - apply (bool_decide_unpack _). by vm_compute.
Qed.

Lemma slider_linear : linear (slider (num := float) gait_names).
Proof.
  split; simpl; try done.
  intros st j Hrest. destruct st as [|q [|v st]]; try discriminate.
  simpl in Hrest. injection Hrest as -> _. reflexivity.
Qed.

(** Zero degrees are zero radians in binary64. *)
Example deg2rad_zero : deg2rad 0%float = 0%float.
Proof. reflexivity. Qed.

(** ** Reading a frame *)

Section Reading.

Context {num : Type} `{Arith num}.

Lemma for_ind {T : Type} (P : nat -> T -> Prop) (body : nat -> T -> T)
    (len lo : nat) (s : T) :
  P lo s ->
  (forall j s, lo <= j < lo + len -> P j s -> P (S j) (body j s)) ->
  P (lo + len) (for_ lo len body s).
Proof.
  revert lo s. induction len as [|len IH]; intros lo s Hs Hstep.
  - by rewrite Nat.add_0_r.
  - rewrite for_S. replace (lo + S len) with (S lo + len) by lia.
    apply IH; [apply Hstep; [lia|done]|].
    intros j s' Hj. apply Hstep. lia.
Qed.

Lemma extract_carries (s : istream) (v : num) (vs : list num)
    (rest : list token) (old : num) :
  carries s (v :: vs) rest ->
  exists s', extract s old = (v, s') /\ carries s' vs rest.
Proof.
  intros (Hfail & Htoks & Heof). unfold extract, good.
  rewrite Hfail, Heof by done. simpl in *. rewrite Htoks.
  eexists. split; [reflexivity|].
  split; [done|]. split; [done|]. simpl.
  destruct vs; [done|]. done.
Qed.

Lemma extract_at_carries (s : istream) (v : num) (vs : list num)
    (rest : list token) (b : list num) (j : nat) :
  carries s (v :: vs) rest ->
  exists s', extract_at s b j = (<[j := v]> b, s') /\ carries s' vs rest.
Proof.
  intros Hs. unfold extract_at.
  destruct (extract_carries s v vs rest (at_ b j) Hs) as (s' & -> & Hs').
  by exists s'.
Qed.


Lemma take_S_insert (b vs : list num) (k : nat) (v : num) :
  k < length b -> vs !! k = Some v -> take k b = take k vs ->
  take (S k) (<[k := v]> b) = take (S k) vs.
Proof.
  intros Hk Hv Htake.
  rewrite (take_S_r (<[k := v]> b) k v) by by apply list_lookup_insert_eq.
  rewrite (take_S_r vs k v) by done.
  rewrite take_insert_ge by lia. by rewrite Htake.
Qed.

Lemma drop_carries (vs : list num) (k : nat) (v : num) (more : list num) :
  vs !! k = Some v -> drop k vs ++ more = v :: (drop (S k) vs ++ more).
Proof. intros Hv. by rewrite (drop_S vs v k Hv). Qed.

Lemma filled (b vs : list num) :
  length b = length vs -> take (length vs) b = take (length vs) vs -> b = vs.
Proof. intros Hl Ht. rewrite !take_ge in Ht by lia. done. Qed.

(** Lines 188-190: the 18 contact channels. *)
Lemma read_grfs_spec (i : Inputs) (b : Buffers) (g more : list num)
    (rest : list token) :
  carries (grfs_file i) (g ++ more) rest ->
  length g = expectedGRFSize -> length (grfs b) = expectedGRFSize ->
  exists s',
    for_ 0 expectedGRFSize read_grf_at (i, b)
    = ({| grfs_file := s'; states_file := states_file i;
          accelerations_file := accelerations_file i;
          dynamics_file := dynamics_file i |},
       {| time := time b; grfs := g; states := states b;
          accelerations := accelerations b; dynamics := dynamics b |}) /\
    carries s' more rest.
Proof.
  intros Hg Hlg Hlb.
  pose (P := fun (j : nat) (ib : Inputs * Buffers) =>
    carries (grfs_file ib.1) (drop j g ++ more) rest /\
    take j (grfs ib.2) = take j g /\ length (grfs ib.2) = expectedGRFSize /\
    states_file ib.1 = states_file i /\
    accelerations_file ib.1 = accelerations_file i /\
    dynamics_file ib.1 = dynamics_file i /\
    time ib.2 = time b /\ states ib.2 = states b /\
    accelerations ib.2 = accelerations b /\ dynamics ib.2 = dynamics b).
  assert (P (0 + expectedGRFSize)
            (for_ 0 expectedGRFSize read_grf_at (i, b))) as HP.
  { apply (for_ind P); [split; [exact Hg|by repeat split]|].
    intros j [i1 b1] Hj (Hc & Ht & Hl & ? & ? & ? & ? & ? & ? & ?).
    simpl in *.
    destruct (lookup_lt_is_Some_2 g j) as [v Hv]; [lia|].
    rewrite (drop_carries g j v more Hv) in Hc.
    destruct (extract_at_carries _ _ _ _ (grfs b1) j Hc) as (s' & He & Hs').
    unfold P, read_grf_at. rewrite He. simpl.
    repeat split; try done.
    - apply Hs'.
    - apply Hs'.
    - apply Hs'.
    - apply take_S_insert; [lia|done..].
    - by rewrite length_insert. }
  destruct (for_ 0 expectedGRFSize read_grf_at (i, b)) as [i' b'].
  destruct HP as (Hc & Ht & Hl & ? & ? & ? & ? & ? & ? & ?).
  simpl in *. exists (grfs_file i').
  rewrite <- Hlg in Ht, Hc at 1. rewrite drop_all in Hc.
  apply filled in Ht; [|lia].
  destruct i', b'; simpl in *; subst. done.
Qed.

Lemma convert_in_place (b : list num) (j : nat) (v : num) :
  j < length b ->
  (if (j <? 3) || (5 <? j)
   then <[j := deg2rad (at_ (<[j := v]> b) j)]> (<[j := v]> b)
   else <[j := v]> b)
  = <[j := converted j v]> b.
Proof.
  intros Hj. unfold converted, at_.
  destruct ((j <? 3) || (5 <? j)); [|done].
  rewrite list_lookup_insert_eq by done. simpl.
  by rewrite list_insert_insert_eq.
Qed.

(** Lines 191-205: torques, accelerations and states. *)
Lemma read_dofs_spec (n : nat) (i : Inputs) (b : Buffers)
    (d md a ma x ms : list num) (rd ra rs : list token) :
  carries (dynamics_file i) (d ++ md) rd ->
  carries (accelerations_file i) (a ++ ma) ra ->
  carries (states_file i) (x ++ ms) rs ->
  length d = n -> length a = n -> length x = 2 * n ->
  length (dynamics b) = n -> length (accelerations b) = n ->
  length (states b) = 2 * n ->
  exists s' a' d',
    for_ 0 (2 * n) (read_dof_at n) (i, b)
    = ({| grfs_file := grfs_file i; states_file := s';
          accelerations_file := a'; dynamics_file := d' |},
       {| time := time b; grfs := grfs b; states := x;
          accelerations := imap converted a; dynamics := d |}) /\
    carries s' ms rs /\ carries a' ma ra /\ carries d' md rd.
Proof.
  intros Hd Ha Hx Hld Hla Hlx Hbd Hba Hbx.
  pose (P := fun (j : nat) (ib : Inputs * Buffers) =>
    carries (dynamics_file ib.1) (drop (j `min` n) d ++ md) rd /\
    take (j `min` n) (dynamics ib.2) = take (j `min` n) d /\
    length (dynamics ib.2) = n /\
    carries (accelerations_file ib.1) (drop (j `min` n) a ++ ma) ra /\
    take (j `min` n) (accelerations ib.2)
    = take (j `min` n) (imap converted a) /\
    length (accelerations ib.2) = n /\
    carries (states_file ib.1) (drop j x ++ ms) rs /\
    take j (states ib.2) = take j x /\ length (states ib.2) = 2 * n /\
    grfs_file ib.1 = grfs_file i /\ time ib.2 = time b /\
    grfs ib.2 = grfs b).
  assert (P (0 + 2 * n) (for_ 0 (2 * n) (read_dof_at n) (i, b))) as HP.
  { apply (for_ind P); [by repeat (split; [done|])|].
    intros j [i1 b1] Hj
      (Hcd & Htd & Hlbd & Hca & Hta & Hlba & Hcs & Hts & Hlbs & ? & ? & ?).
    simpl in *.
    destruct (lookup_lt_is_Some_2 x j) as [xj Hxj]; [lia|].
    rewrite (drop_carries x j xj ms Hxj) in Hcs.
    destruct (extract_at_carries _ _ _ _ (states b1) j Hcs)
      as (s' & Hes & Hs').
    unfold P, read_dof_at.
    destruct (Nat.ltb_spec j n) as [Hjn|Hjn].
    - rewrite !Nat.min_l in * by lia.
      destruct (lookup_lt_is_Some_2 d j) as [dj Hdj]; [lia|].
      destruct (lookup_lt_is_Some_2 a j) as [aj Haj]; [lia|].
      rewrite (drop_carries d j dj md Hdj) in Hcd.
      rewrite (drop_carries a j aj ma Haj) in Hca.
      destruct (extract_at_carries _ _ _ _ (dynamics b1) j Hcd)
        as (d' & -> & Hd').
      destruct (extract_at_carries _ _ _ _ (accelerations b1) j Hca)
        as (a' & -> & Ha').
      rewrite convert_in_place by lia. rewrite Hes. simpl.
      repeat (split; [first [done | by rewrite length_insert
        | apply take_S_insert; [lia|done..] ]|]); try done.
      split.
      { apply take_S_insert; [lia| |done].
        rewrite list_lookup_imap, Haj. done. }
      repeat (split; [first [done | by rewrite length_insert
        | apply take_S_insert; [lia|done..] ]|]); done.
    - rewrite !Nat.min_r in * by lia. rewrite Hes. simpl.
      repeat (split; [first [done | by rewrite length_insert
        | apply take_S_insert; [lia|done..] ]|]); done. }
  destruct (for_ 0 (2 * n) (read_dof_at n) (i, b)) as [i' b'].
  destruct HP as
    (Hcd & Htd & Hlbd & Hca & Hta & Hlba & Hcs & Hts & Hlbs & ? & ? & ?).
  simpl in *.
  replace (n + (n + 0)) with (length x) in Hcs, Hts by lia.
  replace ((n + (n + 0)) `min` n) with n in * by lia.
  rewrite drop_all in Hcs.
  rewrite <- Hld in Hcd, Htd at 1 2. rewrite drop_all in Hcd.
  rewrite <- Hla in Hca at 1. rewrite drop_all in Hca.
  apply filled in Hts; [|lia]. apply filled in Htd; [|lia].
  assert (accelerations b' = imap converted a) as Hacc.
  { rewrite !take_ge in Hta by (rewrite ?length_imap; lia). done. }
  exists (states_file i'), (accelerations_file i'), (dynamics_file i').
  destruct i', b'; simpl in *; subst. done.
Qed.

(** Lines 188-205. *)
Lemma read_payload_spec (n : nat) (i : Inputs) (b : Buffers)
    (g mg d md a ma x ms : list num) (rg rd ra rs : list token) :
  carries (grfs_file i) (g ++ mg) rg ->
  carries (dynamics_file i) (d ++ md) rd ->
  carries (accelerations_file i) (a ++ ma) ra ->
  carries (states_file i) (x ++ ms) rs ->
  length g = expectedGRFSize -> length d = n -> length a = n ->
  length x = 2 * n ->
  length (grfs b) = expectedGRFSize -> length (dynamics b) = n ->
  length (accelerations b) = n -> length (states b) = 2 * n ->
  exists g' s' a' d',
    read_payload n (i, b)
    = ({| grfs_file := g'; states_file := s'; accelerations_file := a';
          dynamics_file := d' |},
       {| time := time b; grfs := g; states := x;
          accelerations := imap converted a; dynamics := d |}) /\
    carries g' mg rg /\ carries s' ms rs /\ carries a' ma ra /\
    carries d' md rd.
Proof.
  intros Hg Hd Ha Hx Hlg Hld Hla Hlx Hbg Hbd Hba Hbx. unfold read_payload.
  destruct (read_grfs_spec i b g mg rg Hg Hlg Hbg) as (g' & -> & Hg').
  destruct (read_dofs_spec n
              {| grfs_file := g'; states_file := states_file i;
                 accelerations_file := accelerations_file i;
                 dynamics_file := dynamics_file i |}
              {| time := time b; grfs := g; states := states b;
                 accelerations := accelerations b; dynamics := dynamics b |}
              d md a ma x ms rd ra rs)
    as (s' & a' & d' & -> & Hs' & Ha' & Hd'); try done.
  exists g', s', a', d'. done.
Qed.

(** C3.  When the streams hold the payload of a frame, the acceleration of
    index [j] handed to the mass-matrix product is the value read,
    multiplied by [atan(1)*4] and divided by 180, for [j < 3] and [j > 5],
    and the value read itself for [j] = 3, 4, 5; the measured torques and
    the states are the values read. *)
Theorem acceleration_units (n : nat) (i : Inputs) (b : Buffers)
    (g mg d md a ma x ms : list num) (rg rd ra rs : list token) :
  carries (grfs_file i) (g ++ mg) rg ->
  carries (dynamics_file i) (d ++ md) rd ->
  carries (accelerations_file i) (a ++ ma) ra ->
  carries (states_file i) (x ++ ms) rs ->
  length g = expectedGRFSize -> length d = n -> length a = n ->
  length x = 2 * n ->
  length (grfs b) = expectedGRFSize -> length (dynamics b) = n ->
  length (accelerations b) = n -> length (states b) = 2 * n ->
  let b' := (read_payload n (i, b)).2 in
  (forall j aj, a !! j = Some aj ->
     (j < 3 \/ 5 < j ->
      accelerations b' !! j = Some (div (mul aj (mul atan1 lit4)) lit180)) /\
     (3 <= j <= 5 -> accelerations b' !! j = Some aj)) /\
  dynamics b' = d /\ states b' = x /\
  forall (E : Engine) (u : list SpatialVec) (t : Torques),
    decompose E u b' = OK t ->
    inertiaTorques t = multiplyByM E x (accelerations b').
Proof.
  intros Hg Hd Ha Hx Hlg Hld Hla Hlx Hbg Hbd Hba Hbx.
  destruct (read_payload_spec n i b g mg d md a ma x ms rg rd ra rs)
    as (g' & s' & a' & d' & -> & _); try done.
  simpl. split; [|split; [done|split; [done|]]].
  - intros j aj Haj. rewrite list_lookup_imap, Haj. simpl.
    unfold converted, deg2rad, pi. split.
    + intros Hj. destruct (Nat.ltb_spec j 3), (Nat.ltb_spec 5 j);
        simpl; (done || lia).
    + intros Hj. destruct (Nat.ltb_spec j 3), (Nat.ltb_spec 5 j);
        simpl; (done || lia).
  - intros E u t. unfold decompose. simpl.
    destruct (realize E x); [|done].
    destruct (coriolis E x u); [|done]. simpl.
    destruct (contacts E x g); [|done]. simpl.
    by intros [= <-].
Qed.

End Reading.

Lemma acceleration_units_witness :
  let b' := (read_payload 7 (units_inputs, units_buffers)).2 in
  (forall j aj, units_acc !! j = Some aj ->
     (j < 3 \/ 5 < j ->
      accelerations b' !! j = Some (div (mul aj (mul atan1 lit4)) lit180)) /\
     (3 <= j <= 5 -> accelerations b' !! j = Some aj)) /\
  dynamics b' = units_dyn /\ states b' = units_states /\
  forall (E : Engine) (u : list SpatialVec) (t : Torques),
    decompose E u b' = OK t ->
    inertiaTorques t = multiplyByM E units_states (accelerations b').
Proof.
  apply (acceleration_units 7 units_inputs units_buffers
           (replicate 18 0%float) [] units_dyn [] units_acc []
           units_states [] [] [] [] []);
    try reflexivity; (split; [reflexivity|split; [reflexivity|done]]).
Defined.

(** The accelerations of the seven-degree-of-freedom frame, converted:
    180, 90 and 45 degrees, three translations kept, 360 degrees. *)
Example units_converted :
  accelerations (read_payload 7 (units_inputs, units_buffers)).2
  = [0x1.921fb54442d18p+1; 0x1.921fb54442d18p+0; 0x1.921fb54442d18p-1;
     1; 2; 3; 0x1.921fb54442d18p+2]%float.
Proof. reflexivity. Qed.

(** ** The frame loop on aligned input *)

Section Frames.

Context {num : Type} `{Arith num}.

Variables (E : @Engine num) (stack : nat -> nat -> @SpatialVec num).
Hypothesis E_regular : regular E.

Lemma decompose_regular (k : nat) (b : Buffers) :
  length (accelerations b) = numMobilities E ->
  exists t, decompose E (uninit_centrifugal stack k) b = OK t /\
    length (inertiaTorques t) = numMobilities E /\
    length (gravityTorques t) = numMobilities E /\
    length (coriolisTorques t) = numMobilities E /\
    length (rightGRFTorques (contact t)) = numMobilities E /\
    length (leftGRFTorques (contact t)) = numMobilities E.
Proof using E_regular.
  intros Hacc. unfold decompose, coriolis.
  rewrite (realizes E E_regular).
  destruct (totalCentrifugalForces_spec E (states b)
              (uninit_centrifugal stack k)
              (length_uninit_centrifugal stack k)) as (_ & Hin & _).
  rewrite (proj2 Hin (bodies_fit E E_regular)). simpl.
  destruct (contacts_spec E (states b) (grfs b) (bodies_named E E_regular))
    as (c & -> & _ & _ & _ & _ & PR & PL).
  simpl. eexists. split; [reflexivity|]. simpl.
  destruct (PR (has_calcn_r E E_regular)) as (jr & pr & ->).
  destruct (PL (has_calcn_l E E_regular)) as (jl & pl & ->).
  rewrite !(size_JT E E_regular), !(size_FJT E E_regular).
  rewrite (size_M E E_regular) by done. done.
Qed.

Lemma write_frame_regular (t : Torques) (dyn : Vector) (f : Files) :
  length (inertiaTorques t) = numMobilities E ->
  length (gravityTorques t) = numMobilities E ->
  length (coriolisTorques t) = numMobilities E ->
  length (rightGRFTorques (contact t)) = numMobilities E ->
  length (leftGRFTorques (contact t)) = numMobilities E ->
  length dyn = numMobilities E ->
  exists res int,
    residualForce t dyn = OK res /\ internalForce t = OK int /\
    write_frame t dyn f
    = ({| leftAPOJacobian_file :=
            leftAPOJacobian_file f ++ leftAPOJacobian (contact t);
          rightAPOJacobian_file :=
            rightAPOJacobian_file f ++ rightAPOJacobian (contact t);
          residualForce_file := residualForce_file f ++ [res];
          internalForce_file := internalForce_file f ++ [int] |}, None).
Proof.
  intros HI HG HC HR HL HD. unfold write_frame.
  rewrite (residualForce_sized t dyn (numMobilities E)) by done.
  rewrite (internalForce_sized t (numMobilities E)) by done.
  eexists _, _. done.
Qed.


Lemma loop_body_unfold (s : LoopState) (i1 i2 : Inputs) (b1 b2 : Buffers) :
  read_times (ins s) (buf s) = (i1, b1) ->
  eof (states_file i1) = false ->
  read_payload (numMobilities E) (i1, b1) = (i2, b2) ->
  loop_body E stack s
  = match decompose E (uninit_centrifugal stack (iter s)) b2 with
    | Fault e =>
        ({| ins := i2; buf := b2; first_frame := first_frame s;
            out := out s; iter := iter s |}, Raise e)
    | OK t =>
        if first_frame s then
          ({| ins := i2; buf := b2; first_frame := false; out := out s;
              iter := S (iter s) |}, Continue)
        else
          let '(f, r) := write_frame t (dynamics b2) (out s) in
          ({| ins := i2; buf := b2; first_frame := false; out := f;
              iter := S (iter s) |},
           match r with Some e => Raise e | None => Continue end)
    end.
Proof. intros H1 H2 H3. unfold loop_body. by rewrite H1, H2, H3. Qed.




End Frames.

Section Run.

Context {num : Type} `{Arith num}.

Variables (E : @Engine num) (stack : nat -> nat -> @SpatialVec num).
Hypothesis E_regular : regular E.
Hypothesis E_moves : 0 < numMobilities E.

Lemma frame_loop_S (fuel : nat) (s : LoopState) :
  frame_loop E stack (S fuel) s
  = match loop_body E stack s with
    | (s', Continue) => frame_loop E stack fuel s'
    | (s', Break) => (s', Finished)
    | (s', Raise f) => (s', Failed f)
    end.
Proof. reflexivity. Qed.



End Run.

Section Main.

Context {num : Type} `{Arith num}.

Lemma allocated_initial (W : @World num) (E : @Engine num) (argv : list string) :
  allocated (numMobilities E) (buf (initial W E argv)).
Proof.
  unfold allocated. simpl. by rewrite !length_fmap, !length_seq.
Qed.

End Main.


(** The run on the three frames, evaluated: two rows in each vector file
    and two Jacobians of six rows in each Jacobian file. *)
Example trial_run :
  exit_status (main gait_world 4 six_args) = Exit 0 /\
  residualForce_file (written (main gait_world 4 six_args))
  = [[-0x1.2011df46a252ap+7]; [-13]]%float /\
  internalForce_file (written (main gait_world 4 six_args))
  = [[0x1.2e11df46a252ap+7]; [13]]%float /\
  length (leftAPOJacobian_file (written (main gait_world 4 six_args))) = 12 /\
  length (rightAPOJacobian_file (written (main gait_world 4 six_args))) = 12.
Proof. by vm_compute. Qed.

(** ** A states stream that fails before its end *)

Section Stuck.

Context {num : Type} `{Arith num}.

Lemma extract_stuck (s : istream) (old : num) :
  stuck s -> stuck (extract s old).2 /\ eof (extract s old).2 = false.
Proof.
  intros (Heof & Hfail). unfold extract, good, eof. rewrite Heof.
  destruct (failbit s) eqn:Hf; simpl.
  - split; [split; [done|by left]|done].
  - destruct Hfail as [?|(r & ->)]; [done|]. simpl.
    split; [split; [done|by left]|done].
Qed.

Lemma extract_at_stuck (s : istream) (b : list num) (j : nat) :
  stuck s -> stuck (extract_at s b j).2.
Proof.
  intros Hs. unfold extract_at.
  pose proof (extract_stuck s (at_ b j) Hs) as [Hs' _].
  by destruct (extract s (at_ b j)).
Qed.

Lemma extract_at_length (s : istream) (b : list num) (j : nat) :
  length (extract_at s b j).1 = length b.
Proof.
  unfold extract_at. destruct (extract s (at_ b j)). simpl.
  apply length_insert.
Qed.

Lemma read_times_stays (n : nat) (i : Inputs) (b : Buffers) :
  stays n (i, b) ->
  stays n (read_times i b) /\ eof (states_file (read_times i b).1) = false.
Proof.
  intros [Hs Hb]. unfold read_times, stays.
  destruct (extract (grfs_file i) (time b)) as [t1 g1].
  pose proof (extract_stuck (states_file i) t1 Hs) as [Hs' Heof].
  destruct (extract (states_file i) t1) as [t2 s2].
  destruct (extract (accelerations_file i) t2) as [t3 a3].
  destruct (extract (dynamics_file i) t3) as [t4 d4]. done.
Qed.

Lemma read_grf_at_stays (n j : nat) (ib : Inputs * Buffers) :
  stays n ib -> stays n (read_grf_at j ib).
Proof.
  destruct ib as [i b]. intros [Hs (Hg & Hx & Ha & Hd)].
  unfold read_grf_at, stays, allocated.
  pose proof (extract_at_length (grfs_file i) (grfs b) j) as Hl.
  destruct (extract_at (grfs_file i) (grfs b) j) as [g s]. simpl in *.
  split; [exact Hs|]. repeat split; (done || lia).
Qed.

Lemma read_dof_at_stays (n j : nat) (ib : Inputs * Buffers) :
  stays n ib -> stays n (read_dof_at n j ib).
Proof.
  destruct ib as [i b]. intros [Hs (Hg & Hx & Ha & Hd)].
  unfold read_dof_at, stays, allocated.
  pose proof (extract_at_length (states_file i) (states b) j) as Hlx.
  pose proof (extract_at_stuck (states_file i) (states b) j Hs) as Hs'.
  pose proof (extract_at_length (dynamics_file i) (dynamics b) j) as Hld.
  pose proof (extract_at_length (accelerations_file i) (accelerations b) j)
    as Hla.
  destruct (j <? n).
  - destruct (extract_at (dynamics_file i) (dynamics b) j) as [dy d].
    destruct (extract_at (accelerations_file i) (accelerations b) j)
      as [ac a].
    destruct (extract_at (states_file i) (states b) j) as [st s].
    simpl in *. split; [exact Hs'|]. repeat split; try (done || lia).
    destruct ((j <? 3) || (5 <? j)); rewrite ?length_insert; lia.
  - destruct (extract_at (states_file i) (states b) j) as [st s].
    simpl in *. split; [exact Hs'|]. repeat split; (done || lia).
Qed.

Lemma read_payload_stays (n : nat) (ib : Inputs * Buffers) :
  stays n ib -> stays n (read_payload n ib).
Proof.
  intros Hib. unfold read_payload.
  apply (for_ind (fun _ => stays n)); [|intros; by apply read_dof_at_stays].
  apply (for_ind (fun _ => stays n)); [done|].
  intros; by apply read_grf_at_stays.
Qed.

Variables (E : @Engine num) (stack : nat -> nat -> @SpatialVec num).
Hypothesis E_regular : regular E.

(** With a stuck states stream an iteration never leaves the loop. *)
Lemma loop_body_stuck (s : LoopState) :
  stays (numMobilities E) (ins s, buf s) ->
  exists s', loop_body E stack s = (s', Continue) /\
    stays (numMobilities E) (ins s', buf s').
Proof using E_regular.
  intros Hs.
  destruct (read_times_stays _ _ _ Hs) as [H1 Heof].
  destruct (read_times (ins s) (buf s)) as [i1 b1] eqn:Htimes.
  pose proof (read_payload_stays _ _ H1) as H2.
  destruct (read_payload (numMobilities E) (i1, b1)) as [i2 b2] eqn:Hpay.
  rewrite (loop_body_unfold E stack s _ _ _ _ Htimes Heof Hpay).
  destruct H2 as [Hs2 Hb2]. pose proof Hb2 as (_ & _ & Ha & Hd).
  simpl in Ha, Hd.
  destruct (decompose_regular E stack E_regular (iter s) b2 Ha)
    as (t & -> & HI & HG & HC & HR & HL).
  destruct (first_frame s).
  - eexists. split; [reflexivity|]. done.
  - destruct (write_frame_regular E t (dynamics b2) (out s))
      as (res & int & _ & _ & ->); try done.
    eexists. split; [reflexivity|]. done.
Qed.

(** The loop does not end on a stuck states stream: no amount of fuel
    reaches the [break]. *)
Lemma stuck_states_never_finish (fuel : nat) :
  forall s, stays (numMobilities E) (ins s, buf s) ->
            (frame_loop E stack fuel s).2 = Unfinished.
Proof using E_regular.
  induction fuel as [|fuel IH]; intros s Hs; [reflexivity|].
  destruct (loop_body_stuck s Hs) as (s' & Hbody & Hs').
  rewrite frame_loop_S, Hbody. by apply IH.
Qed.

(** The loop is left through its [break] only, and that is taken exactly
    when the states stream reports end-of-input after the time tags are
    read; no other stream is asked. *)
Lemma break_iff_states_eof (s : LoopState) :
  (loop_body E stack s).2 = Break
  <-> eof (states_file (read_times (ins s) (buf s)).1) = true.
Proof.
  unfold loop_body.
  destruct (read_times (ins s) (buf s)) as [i1 b1]. simpl.
  destruct (eof (states_file i1)); [done|].
  destruct (read_payload (numMobilities E) (i1, b1)) as [i2 b2].
  destruct (decompose E (uninit_centrifugal stack (iter s)) b2);
    [|done].
  destruct (first_frame s); [done|].
  destruct (write_frame a (dynamics b2) (out s)) as [f [e|]]; done.
Qed.

End Stuck.

Lemma main_runs {num : Type} `{Arith num} (W : @World num) (E : Engine)
    (fuel : nat) (argv : list string) :
  length argv = 7 -> load_model W (arg argv 1) = Some E ->
  exit_status (main W fuel argv)
  = match (frame_loop E (uninit_stack W) fuel (initial W E argv)).2 with
    | Finished => Exit 0
    | Failed Thrown => Exit 1
    | Failed Undefined => Crash
    | Unfinished => Running
    end.
Proof.
  intros Hargc Hload. unfold main. rewrite Hargc.
  cbn [Nat.ltb Nat.leb Nat.eqb andb]. rewrite Hload.
  by destruct (frame_loop E (uninit_stack W) fuel (initial W E argv)).
Qed.

(** C8, where the code departs from it.  The states file begins with a
    column header.  The first time-tag read fails without reaching the end
    of the file, [eof()] stays false, and the loop runs for as long as it is
    given fuel: the program never returns. *)
Theorem header_in_states_never_returns (fuel : nat) :
  exit_status (main header_world fuel six_args) = Running.
Proof.
  rewrite (main_runs header_world (slider gait_names)) by reflexivity.
  rewrite (stuck_states_never_finish (slider gait_names) _ slider_regular);
    [reflexivity|].
  split; [|apply allocated_initial].
  split; [reflexivity|]. right. eexists. reflexivity.
Qed.

(** Thirty iterations on that input: still running, 29 rows written. *)
Example header_run_30 :
  exit_status (main header_world 30 six_args) = Running /\
  length (residualForce_file (written (main header_world 30 six_args))) = 29.
Proof. by vm_compute. Qed.

(** ** A states stream of numbers *)

Section Numeric.

Context {num : Type} `{Arith num}.

Lemma extract_numeric (s : istream) (old : num) :
  numeric s ->
  numeric (extract s old).2 /\
  length (toks (extract s old).2) <= length (toks s) /\
  (eof (extract s old).2 = false ->
   length (toks (extract s old).2) < length (toks s)).
Proof.
  intros [Hnum Hfe]. unfold extract, good, eof, numeric.
  destruct (failbit s) eqn:Hf; simpl.
  { specialize (Hfe eq_refl). split; [done|]. split; [lia|]. congruence. }
  destruct (eofbit s) eqn:He; simpl.
  { rewrite He. split; [done|]. split; [lia|]. congruence. }
  destruct (toks s) as [|[x| |v] rest]; simpl in *.
  - split; [done|]. split; [lia|]. congruence.
  - split; [done|]. split; lia.
  - done.
  - done.
Qed.

Lemma extract_at_numeric (s : istream) (b : list num) (j : nat) :
  numeric s ->
  numeric (extract_at s b j).2 /\
  length (toks (extract_at s b j).2) <= length (toks s).
Proof.
  intros Hs. unfold extract_at.
  destruct (extract_numeric s (at_ b j) Hs) as (Hn & Hl & _).
  by destruct (extract s (at_ b j)).
Qed.

Lemma read_payload_within (n m : nat) (ib : Inputs * Buffers) :
  within m ib -> within m (read_payload n ib).
Proof.
  intros Hib. unfold read_payload.
  apply (for_ind (fun _ => within m)).
  - apply (for_ind (fun _ => within m)); [done|].
    intros j [i b] _ Hw. unfold read_grf_at.
    by destruct (extract_at (grfs_file i) (grfs b) j).
  - intros j [i b] _ [Hn Hl]. unfold read_dof_at, within. simpl in *.
    destruct (extract_at_numeric (states_file i) (states b) j Hn)
      as [Hn' Hl'].
    destruct (j <? n).
    + destruct (extract_at (dynamics_file i) (dynamics b) j).
      destruct (extract_at (accelerations_file i) (accelerations b) j).
      destruct (extract_at (states_file i) (states b) j).
      simpl in *. split; [done|lia].
    + destruct (extract_at (states_file i) (states b) j).
      simpl in *. split; [done|lia].
Qed.

Variables (E : @Engine num) (stack : nat -> nat -> @SpatialVec num).

(** An iteration that goes on has taken at least the time tag from the
    states stream. *)
Lemma loop_body_numeric (s : LoopState) :
  numeric (states_file (ins s)) ->
  (loop_body E stack s).2 = Continue ->
  numeric (states_file (ins (loop_body E stack s).1)) /\
  length (toks (states_file (ins (loop_body E stack s).1)))
  < length (toks (states_file (ins s))).
Proof.
  intros Hs. unfold loop_body, read_times.
  destruct (extract (grfs_file (ins s)) (time (buf s))) as [t1 g1].
  destruct (extract_numeric (states_file (ins s)) t1 Hs) as (Hn & _ & Hlt).
  destruct (extract (states_file (ins s)) t1) as [t2 s2].
  destruct (extract (accelerations_file (ins s)) t2) as [t3 a3].
  destruct (extract (dynamics_file (ins s)) t3) as [t4 d4].
  simpl in *. destruct (eof s2); [done|].
  specialize (Hlt eq_refl).
  match goal with
  | |- context [read_payload ?n ?ib] =>
      pose proof (read_payload_within n (length (toks s2)) ib
                    (conj Hn (Nat.le_refl _))) as [Hn' Hl'];
      destruct (read_payload n ib) as [i2 b2]
  end.
  simpl in *.
  destruct (decompose E (uninit_centrifugal stack (iter s)) b2);
    [|done].
  destruct (first_frame s); simpl; [intros _; split; [done|lia]|].
  destruct (write_frame a (dynamics b2) (out s)) as [f [e|]]; simpl;
    [done|]. intros _. split; [done|lia].
Qed.

(** Where the claim of C8 holds: on a states stream that holds numbers
    only, the loop is over within one iteration more than there are tokens,
    through its [break] or through a fault. *)
Lemma numeric_states_terminate (m : nat) :
  forall (s : LoopState) (fuel : nat),
  numeric (states_file (ins s)) ->
  length (toks (states_file (ins s))) <= m -> m < fuel ->
  (frame_loop E stack fuel s).2 <> Unfinished.
Proof.
  induction m as [|m IH]; intros s fuel Hs Hm Hfuel;
    (destruct fuel as [|fuel]; [lia|]); rewrite frame_loop_S;
    pose proof (loop_body_numeric s Hs) as Hstep;
    destruct (loop_body E stack s) as [s' [| |e]]; simpl in *; try done.
  - destruct (Hstep eq_refl) as [_ Hlt]. lia.
  - destruct (Hstep eq_refl) as [Hs' Hlt]. apply IH; [done|lia..].
Qed.

End Numeric.

(** ** The writers *)

Section Writing.

Context {num : Type} `{Arith num}.

Lemma for_snoc {T : Type} (lo len : nat) (body : nat -> T -> T) (s : T) :
  for_ lo (S len) body s = body (lo + len) (for_ lo len body s).
Proof. unfold for_. by rewrite seq_S, foldl_app. Qed.

Lemma for_ext {T : Type} (body body' : nat -> T -> T) (len lo : nat) (s : T) :
  (forall j s, lo <= j < lo + len -> body j s = body' j s) ->
  for_ lo len body s = for_ lo len body' s.
Proof.
  revert lo s. induction len as [|len IH]; intros lo s Hext; [done|].
  rewrite !for_S, Hext by lia. apply IH. intros j s' Hj. apply Hext. lia.
Qed.

(** A loop that only appends. *)
Lemma append_loop {A : Type} (g : nat -> list A) (n : nat) (f : list A) :
  for_ 0 n (fun k f => f ++ g k) f = f ++ (seq 0 n ≫= g).
Proof.
  induction n as [|n IH]; [by rewrite app_nil_r|].
  rewrite for_snoc, IH, seq_S, bind_app, bind_singleton. simpl.
  by rewrite app_assoc.
Qed.

Lemma bind_seq_lookup {A B : Type} (l : list A) (h : nat -> list B)
    (g : A -> list B) :
  (forall k x, l !! k = Some x -> h k = g x) ->
  seq 0 (length l) ≫= h = l ≫= g.
Proof.
  induction l as [|x l IH] using rev_ind; intros Hh; [done|].
  replace (length (l ++ [x])) with (S (length l))
    by (rewrite length_app; simpl; lia).
  rewrite seq_S, !bind_app, !bind_singleton. simpl. f_equal.
  - apply IH. intros k y Hk. apply Hh.
    rewrite lookup_app_l; [done|]. by eapply lookup_lt_Some.
  - apply Hh. by rewrite list_lookup_middle.
Qed.

Lemma values_by_index (v : list num) : at_ v <$> seq 0 (length v) = v.
Proof.
  apply list_eq. intros j. rewrite list_lookup_fmap.
  destruct (decide (j < length v)) as [Hj|Hj].
  - rewrite lookup_seq_lt by done. simpl. unfold at_.
    destruct (lookup_lt_is_Some_2 v j Hj) as [x ->]. done.
  - rewrite !lookup_ge_None_2; [done|lia|by rewrite length_seq; lia].
Qed.

Lemma row_text_cons (x : num) (r : list num) :
  Text.row_text (x :: r)
  = Text.Val x :: (r ≫= fun y => [Text.Tab; Text.Val y]).
Proof.
  revert x. induction r as [|y r IH]; intros x; [done|].
  change (Text.row_text (x :: y :: r))
    with (Text.Val x :: Text.Tab :: Text.row_text (y :: r)).
  by rewrite IH.
Qed.

Lemma row_text_snoc (r : list num) (x : num) :
  Text.row_text (r ++ [x])
  = (r ≫= fun y => [Text.Val y; Text.Tab]) ++ [Text.Val x].
Proof.
  induction r as [|y r IH]; [done|].
  change ((y :: r) ++ [x]) with (y :: (r ++ [x])).
  rewrite row_text_cons, bind_cons. simpl. rewrite <- IH.
  destruct (r ++ [x]) as [|z w] eqn:Hrx; [by destruct r|].
  by rewrite row_text_cons, bind_cons.
Qed.

(** The loop of the writers without time tag: a tab after every value but
    the last. *)
Lemma timeless_loop (e : nat -> num) (n : nat) (f : Text.stream) :
  for_ 0 n
    (fun j f =>
       if negb (j =? n - 1)
       then (f ++ [Text.Val (e j)]) ++ [Text.Tab]
       else f ++ [Text.Val (e j)]) f
  = f ++ Text.row_text (e <$> seq 0 n).
Proof.
  destruct n as [|m]; [by rewrite app_nil_r|].
  replace (S m - 1) with m by lia.
  rewrite for_snoc, seq_S, fmap_snoc, row_text_snoc. simpl.
  rewrite Nat.eqb_refl. simpl. rewrite app_assoc. f_equal.
  rewrite (for_ext _
             (fun j f => f ++ [Text.Val (e j); Text.Tab])).
  - rewrite append_loop. f_equal. by rewrite list_fmap_bind.
  - intros j s Hj. destruct (Nat.eqb_spec j m); [lia|]. simpl.
    by rewrite <- app_assoc.
Qed.

(** The loop of the writers with time tag: a tab before every value. *)
Lemma tabbed_loop (e : nat -> num) (n : nat) (f : Text.stream) :
  for_ 0 n (fun j f => (f ++ [Text.Tab]) ++ [Text.Val (e j)]) f
  = f ++ ((e <$> seq 0 n) ≫= fun x => [Text.Tab; Text.Val x]).
Proof.
  rewrite (for_ext _ (fun j f => f ++ [Text.Tab; Text.Val (e j)])).
  - rewrite append_loop. f_equal. by rewrite list_fmap_bind.
  - intros j s _. by rewrite <- app_assoc.
Qed.

Lemma writeVectorTimeless_text (f : Text.stream) (v : list num) :
  Text.writeVectorTimeless f v = f ++ Text.row_text v ++ [Text.Endl].
Proof.
  unfold Text.writeVectorTimeless.
  by rewrite (timeless_loop (at_ v)), values_by_index, <- app_assoc.
Qed.

Lemma row_by_index (m : @Matrix num) (k : nat) (r : list num) :
  Text.rectangular m -> m !! k = Some r ->
  Text.elt m k <$> seq 0 (Text.ncol m) = r.
Proof.
  intros Hrect Hk. unfold Text.elt. rewrite Hk. simpl.
  rewrite <- (proj1 (Forall_lookup _ _) Hrect k r Hk).
  apply values_by_index.
Qed.

End Writing.

Section Written.

Context {num : Type} `{Arith num}.

Lemma render_cons (r : list num) (m : @File num) :
  Text.render (r :: m) = (Text.row_text r ++ [Text.Endl]) ++ Text.render m.
Proof. reflexivity. Qed.

(** X1.  [writeVectorTimeless] appends one line to the file: the entries of
    the vector in their order, a tab between two neighbours and none after
    the last, then one newline.  A vector without entries gives a line
    that holds the newline alone. *)
Theorem vector_line_text (file : Text.stream) (v : @Vector num) :
  Text.writeVectorTimeless file v = file ++ Text.row_text v ++ [Text.Endl] /\
  (v = [] -> Text.writeVectorTimeless file v = file ++ [Text.Endl]) /\
  (forall r x, v = r ++ [x] ->
   Text.writeVectorTimeless file v
   = file ++ (r ≫= fun y => [Text.Val y; Text.Tab])
       ++ [Text.Val x; Text.Endl]).
Proof.
  split; [apply writeVectorTimeless_text|].
  split; [by intros ->|].
  intros r x ->. rewrite writeVectorTimeless_text, row_text_snoc.
  by rewrite <- !app_assoc.
Qed.

(** X2.  [writeMatrixTimeless] appends one line for every row of the
    matrix, in the order of the rows, and each line is the line
    [writeVectorTimeless] writes for that row: a Jacobian file is written
    row by row as the two force files are. *)
Theorem matrix_lines_text (file : Text.stream) (m : @Matrix num) :
  Text.rectangular m ->
  Text.writeMatrixTimeless file m = file ++ Text.render m /\
  Text.writeMatrixTimeless file m = foldl Text.writeVectorTimeless file m.
Proof.
  intros Hrect.
  assert (Text.writeMatrixTimeless file m = file ++ Text.render m) as Hm.
  { unfold Text.writeMatrixTimeless, Text.nrow.
    rewrite (for_ext _
               (fun k f =>
                  f ++ (Text.row_text (Text.elt m k <$> seq 0 (Text.ncol m))
                        ++ [Text.Endl]))).
    - rewrite append_loop. f_equal. unfold Text.render.
      apply bind_seq_lookup.
      intros k r Hk. by rewrite (row_by_index m k r).
    - intros k s _. by rewrite timeless_loop, <- app_assoc. }
  split; [exact Hm|]. rewrite Hm. clear Hm Hrect. revert file.
  induction m as [|r m IH]; intros file; [by rewrite app_nil_r|].
  change (foldl Text.writeVectorTimeless file (r :: m))
    with (foldl Text.writeVectorTimeless (Text.writeVectorTimeless file r) m).
  rewrite <- IH, writeVectorTimeless_text, render_cons.
  by rewrite <- !app_assoc.
Qed.

(** X3.  [writeVector] writes what [writeVectorTimeless] writes for the
    vector with the time put in front. *)
Theorem writeVector_prepends_time (file : Text.stream) (time : num)
    (v : @Vector num) :
  Text.writeVector file time v = Text.writeVectorTimeless file (time :: v).
Proof.
  rewrite writeVectorTimeless_text, row_text_cons.
  unfold Text.writeVector.
  rewrite (tabbed_loop (at_ v)), values_by_index.
  by rewrite <- !app_assoc.
Qed.

(** X4.  [writeMatrix] writes the time once, then every row as its values
    with a tab before each, closed by a newline.  So only the first line
    carries the time, every later line starts with a tab, and a matrix
    without rows leaves the time without a newline. *)
Theorem writeMatrix_text (file : Text.stream) (time : num)
    (m : @Matrix num) :
  Text.rectangular m ->
  Text.writeMatrix file time m
  = (file ++ [Text.Val time])
    ++ (m ≫= fun r =>
          (r ≫= fun x => [Text.Tab; Text.Val x]) ++ [Text.Endl]).
Proof.
  intros Hrect. unfold Text.writeMatrix, Text.nrow.
  rewrite (for_ext _
             (fun k f =>
                f ++ (((Text.elt m k <$> seq 0 (Text.ncol m))
                       ≫= fun x => [Text.Tab; Text.Val x])
                      ++ [Text.Endl]))).
  - rewrite append_loop. f_equal. apply bind_seq_lookup.
    intros k r Hk. by rewrite (row_by_index m k r).
  - intros k s _. by rewrite tabbed_loop, <- app_assoc.
Qed.

(** X5.  [printForceVector] prints the entries between brackets, separated
    by a comma and a space, under a heading; for a vector without entries
    it reads outside the vector. *)
Theorem printForceVector_text (cout : Text.stream) (vec : @Vector num)
    (description : string) :
  (vec = [] ->
   Text.printForceVector cout vec description = Fault Undefined) /\
  (forall r x, vec = r ++ [x] ->
   Text.printForceVector cout vec description
   = OK (cout
         ++ [Text.Endl;
             Text.Str ("Joint-space force due to " +:+ description +:+ ":");
             Text.Endl; Text.Str "["]
         ++ (r ≫= fun y => [Text.Val y; Text.Str ", "])
         ++ [Text.Val x; Text.Str "]"; Text.Endl])).
Proof.
  split; [by intros ->|].
  intros r x ->. unfold Text.printForceVector.
  replace (length (r ++ [x]) - 1) with (length r)
    by (rewrite length_app; simpl; lia).
  rewrite list_lookup_middle by done.
  rewrite length_app, Nat.add_comm. simpl. f_equal.
  rewrite (for_ext _
             (fun j c => c ++ [Text.Val (at_ r j); Text.Str ", "])).
  - rewrite append_loop.
    rewrite (bind_seq_lookup r _
               (fun y => [Text.Val y; Text.Str ", "])).
    + by rewrite <- !app_assoc.
    + intros k y Hk. unfold at_. by rewrite Hk.
  - intros j s Hj. rewrite <- app_assoc. simpl. unfold at_.
    rewrite lookup_app_l by lia. done.
Qed.

End Written.

Lemma matrix_lines_text_witness :
  Text.writeMatrixTimeless [] sample_matrix = [] ++ Text.render sample_matrix /\
  Text.writeMatrixTimeless [] sample_matrix
  = foldl Text.writeVectorTimeless [] sample_matrix.
Proof.
  apply (matrix_lines_text [] sample_matrix). by repeat constructor.
Defined.

Lemma writeMatrix_text_witness :
  Text.writeMatrix [] 0.5%float sample_matrix
  = ([] ++ [Text.Val 0.5%float])
    ++ (sample_matrix ≫= fun r =>
          (r ≫= fun x => [Text.Tab; Text.Val x]) ++ [Text.Endl]).
Proof. apply writeMatrix_text. repeat constructor. Defined.

(** The text of a time-tagged matrix of two rows. *)
Example writeMatrix_two_rows :
  Text.writeMatrix [] 0.5%float sample_matrix
  = [Text.Val 0.5; Text.Tab; Text.Val 1; Text.Tab; Text.Val 2; Text.Tab;
     Text.Val 3; Text.Endl;
     Text.Tab; Text.Val 4; Text.Tab; Text.Val 5; Text.Tab; Text.Val 6;
     Text.Endl]%float.
Proof. reflexivity. Qed.

(** ** What the loop keeps, whatever it reads *)

Section Kept.

Context {num : Type} `{Arith num}.

Lemma write_frame_counts (t : Torques) (dyn : @Vector num) (f : Files) :
  length (residualForce_file f) = length (internalForce_file f) ->
  length (residualForce_file (write_frame t dyn f).1)
  = length (internalForce_file (write_frame t dyn f).1).
Proof.
  intros Hf. unfold write_frame, writeVectorTimeless.
  destruct (residualForce t dyn); [|done].
  destruct (internalForce t); [|done].
  simpl. rewrite !length_app. simpl. lia.
Qed.

Lemma loop_body_counts (E : @Engine num)
    (stack : nat -> nat -> @SpatialVec num) (s : LoopState) :
  length (residualForce_file (out s)) = length (internalForce_file (out s)) ->
  length (residualForce_file (out (loop_body E stack s).1))
  = length (internalForce_file (out (loop_body E stack s).1)).
Proof.
  intros Hs. unfold loop_body.
  destruct (read_times (ins s) (buf s)) as [i1 b1].
  destruct (eof (states_file i1)); [done|].
  destruct (read_payload (numMobilities E) (i1, b1)) as [i2 b2].
  destruct (decompose E (uninit_centrifugal stack (iter s)) b2) as [t|e];
    [|done].
  destruct (first_frame s); [done|].
  pose proof (write_frame_counts t (dynamics b2) (out s) Hs) as Hw.
  by destruct (write_frame t (dynamics b2) (out s)) as [f r].
Qed.

Lemma frame_loop_counts (E : @Engine num)
    (stack : nat -> nat -> @SpatialVec num) (fuel : nat) :
  forall s,
  length (residualForce_file (out s)) = length (internalForce_file (out s)) ->
  length (residualForce_file (out (frame_loop E stack fuel s).1))
  = length (internalForce_file (out (frame_loop E stack fuel s).1)).
Proof.
  induction fuel as [|fuel IH]; intros s Hs; [done|].
  rewrite frame_loop_S.
  pose proof (loop_body_counts E stack s Hs) as Hstep.
  destruct (loop_body E stack s) as [s' [| |e]]; simpl in *; try done.
  by apply IH.
Qed.

(** X6.  Whatever the arguments, the model, the engine and the contents of
    the four input files, and however far the loop has come, the residual
    file and the internal-force file hold the same number of rows. *)
Theorem vector_files_row_for_row (W : @World num) (fuel : nat)
    (argv : list string) :
  length (residualForce_file (written (main W fuel argv)))
  = length (internalForce_file (written (main W fuel argv))).
Proof.
  unfold main.
  repeat match goal with
         | |- context [if ?c then _ else _] => destruct c; [done|]
         end.
  destruct (load_model W (arg argv 1)) as [E|]; [|done].
  pose proof (frame_loop_counts E (uninit_stack W) fuel (initial W E argv)
                eq_refl) as Hloop.
  by destruct (frame_loop E (uninit_stack W) fuel (initial W E argv)).
Qed.

Lemma read_times_allocated (n : nat) (i : Inputs) (b : @Buffers num) :
  allocated n b -> allocated n (read_times i b).2.
Proof.
  intros Hb. unfold read_times.
  destruct (extract (grfs_file i) (time b)) as [t1 g1].
  destruct (extract (states_file i) t1) as [t2 s2].
  destruct (extract (accelerations_file i) t2) as [t3 a3].
  by destruct (extract (dynamics_file i) t3) as [t4 d4].
Qed.

(** The reads of a frame keep the sizes of the buffers, whatever the
    streams hold. *)
Lemma read_payload_allocated (n : nat) (ib : Inputs * @Buffers num) :
  allocated n ib.2 -> allocated n (read_payload n ib).2.
Proof.
  intros Hib. unfold read_payload.
  apply (for_ind (fun _ ib => allocated n ib.2)).
  - apply (for_ind (fun _ ib => allocated n ib.2)); [done|].
    intros j [i b] _ (Hg & Hx & Ha & Hd). unfold read_grf_at, allocated.
    pose proof (extract_at_length (grfs_file i) (grfs b) j) as Hl.
    destruct (extract_at (grfs_file i) (grfs b) j) as [g s]. simpl in *.
    repeat split; (done || lia).
  - intros j [i b] _ (Hg & Hx & Ha & Hd). unfold read_dof_at, allocated.
    pose proof (extract_at_length (states_file i) (states b) j) as Hlx.
    pose proof (extract_at_length (dynamics_file i) (dynamics b) j) as Hld.
    pose proof (extract_at_length (accelerations_file i)
                  (accelerations b) j) as Hla.
    destruct (j <? n).
    + destruct (extract_at (dynamics_file i) (dynamics b) j) as [dy d].
      destruct (extract_at (accelerations_file i) (accelerations b) j)
        as [ac a].
      destruct (extract_at (states_file i) (states b) j) as [st s].
      simpl in *. repeat split; try (done || lia).
      destruct ((j <? 3) || (5 <? j)); rewrite ?length_insert; lia.
    + destruct (extract_at (states_file i) (states b) j) as [st s].
      simpl in *. repeat split; (done || lia).
Qed.

Lemma loop_body_shaped (E : @Engine num)
    (stack : nat -> nat -> @SpatialVec num) (s : LoopState) :
  regular E -> shaped (numMobilities E) s ->
  shaped (numMobilities E) (loop_body E stack s).1.
Proof.
  intros Hreg (Hb & Hres & Hint). unfold loop_body.
  pose proof (read_times_allocated _ (ins s) (buf s) Hb) as H1.
  destruct (read_times (ins s) (buf s)) as [i1 b1].
  destruct (eof (states_file i1)); [done|].
  pose proof (read_payload_allocated _ (i1, b1) H1) as H2.
  destruct (read_payload (numMobilities E) (i1, b1)) as [i2 b2].
  simpl in H2. pose proof H2 as (_ & _ & Ha & Hd).
  destruct (decompose_regular E stack Hreg (iter s) b2 Ha)
    as (t & -> & HI & HG & HC & HR & HL).
  destruct (first_frame s); [done|].
  unfold write_frame, writeVectorTimeless.
  rewrite (residualForce_sized t (dynamics b2) (numMobilities E)) by done.
  rewrite (internalForce_sized t (numMobilities E)) by done.
  split; [done|]. simpl.
  split; (apply Forall_app; split; [done|]); apply Forall_singleton;
    rewrite !length_zip_with; lia.
Qed.

Lemma frame_loop_shaped (E : @Engine num)
    (stack : nat -> nat -> @SpatialVec num) (fuel : nat) :
  regular E -> forall s, shaped (numMobilities E) s ->
  shaped (numMobilities E) (frame_loop E stack fuel s).1.
Proof.
  intros Hreg. induction fuel as [|fuel IH]; intros s Hs; [done|].
  rewrite frame_loop_S.
  pose proof (loop_body_shaped E stack s Hreg Hs) as Hstep.
  destruct (loop_body E stack s) as [s' [| |e]]; simpl in *; try done.
  by apply IH.
Qed.

(** X7.  On a model the program is written for, every row of the residual
    file and of the internal-force file has one entry per degree of
    freedom, whatever the input files hold (short, misaligned or not
    numeric) and however far the loop has come. *)
Theorem rows_have_n_entries (W : @World num) (E : Engine) (fuel : nat)
    (argv : list string) :
  load_model W (arg argv 1) = Some E -> regular E ->
  Forall (fun r => length r = numMobilities E)
    (residualForce_file (written (main W fuel argv))) /\
  Forall (fun r => length r = numMobilities E)
    (internalForce_file (written (main W fuel argv))).
Proof.
  intros Hload Hreg. unfold main.
  repeat match goal with
         | |- context [if ?c then _ else _] => destruct c; [done|]
         end.
  rewrite Hload.
  pose proof (frame_loop_shaped E (uninit_stack W) fuel Hreg
                (initial W E argv)) as Hloop.
  destruct (frame_loop E (uninit_stack W) fuel (initial W E argv))
    as [s' e].
  apply Hloop. split; [apply allocated_initial|]. by split.
Qed.

End Kept.

Lemma rows_have_n_entries_witness :
  Forall (fun r => length r = 1)
    (residualForce_file (written (main short_grf_world 10 six_args))) /\
  Forall (fun r => length r = 1)
    (internalForce_file (written (main short_grf_world 10 six_args))).
Proof.
  apply (rows_have_n_entries short_grf_world (slider gait_names) 10
           six_args eq_refl slider_regular).
Defined.

(** ** When [main] returns *)

Section Returns.

Context {num : Type} `{Arith num}.

(** X8.  When the states file cannot be opened, or begins (after white
    space) with a character that cannot belong to a number, [main] never
    returns on a model the program is written for: the states stream fails
    without reaching its end, [eof()] stays false and the loop goes on for
    as long as it is given fuel. *)
Theorem stuck_states_never_return (W : @World num) (E : Engine)
    (argv : list string) (fuel : nat) :
  length argv = 7 -> load_model W (arg argv 1) = Some E -> regular E ->
  stuck (open_input W (arg argv 3)) ->
  exit_status (main W fuel argv) = Running.
Proof.
  intros Hargc Hload Hreg Hstuck.
  rewrite (main_runs W E fuel argv Hargc Hload).
  rewrite (stuck_states_never_finish E (uninit_stack W) Hreg);
    [reflexivity|].
  split; [exact Hstuck|apply allocated_initial].
Qed.

(** X9.  When the states file holds nothing but complete literals whose
    values are doubles, [main] returns or runs into undefined behaviour
    within one iteration more than the file has numbers, whatever the
    model, the engine and the other three files. *)
Theorem numeric_states_return (W : @World num) (E : Engine)
    (argv : list string) (fuel : nat) :
  length argv = 7 -> load_model W (arg argv 1) = Some E ->
  numeric (open_input W (arg argv 3)) ->
  length (toks (open_input W (arg argv 3))) < fuel ->
  exit_status (main W fuel argv) <> Running.
Proof.
  intros Hargc Hload Hnum Hfuel.
  rewrite (main_runs W E fuel argv Hargc Hload).
  pose proof (numeric_states_terminate E (uninit_stack W)
                (length (toks (open_input W (arg argv 3))))
                (initial W E argv) fuel Hnum (Nat.le_refl _) Hfuel) as Hend.
  destruct (frame_loop E (uninit_stack W) fuel (initial W E argv)).2
    as [|[|]|]; done.
Qed.

End Returns.

Lemma stuck_states_never_return_witness :
  exit_status (main gait_world 1000 missing_states_args) = Running.
Proof.
  apply (stuck_states_never_return gait_world (slider gait_names)
           missing_states_args 1000 eq_refl eq_refl slider_regular).
  split; [reflexivity|by left].
Defined.

Lemma numeric_states_return_witness :
  exit_status (main short_grf_world 10 six_args) <> Running.
Proof.
  apply (numeric_states_return short_grf_world (slider gait_names)
           six_args 10 eq_refl eq_refl).
  - split; [reflexivity|discriminate].
  - simpl. lia.
Defined.

(** ** A stream that ends before the states stream *)

Section Stale.

Context {num : Type} `{Arith num}.

Lemma extract_failed (s : istream) (old : num) :
  toks s = [] \/ good s = false ->
  (extract s old).1 = old /\ good (extract s old).2 = false.
Proof.
  intros Hs. unfold extract.
  destruct (good s) eqn:Hgood.
  - destruct Hs as [->|?]; [|done]. done.
  - split; [done|]. unfold good in *. simpl.
    by destruct (eofbit s).
Qed.

Lemma extract_at_failed (s : istream) (b : list num) (j : nat) :
  good s = false ->
  (extract_at s b j).1 = <[j := at_ b j]> b /\
  good (extract_at s b j).2 = false.
Proof.
  intros Hs. unfold extract_at.
  destruct (extract_failed s (at_ b j) (or_intror Hs)) as [Hv Hg].
  destruct (extract s (at_ b j)) as [v s']. simpl in *. by subst.
Qed.

Lemma insert_same (b : list num) (j : nat) : <[j := at_ b j]> b = b.
Proof.
  apply list_insert_id'. intros Hj. unfold at_.
  by destruct (lookup_lt_is_Some_2 b j Hj) as [x ->].
Qed.

(** X10.  The end of the contact-force file is never looked at.  Once that
    file is exhausted or has failed, reading a frame leaves the 18 contact
    channels as they were, so the frame is decomposed with the contact
    forces of an earlier frame. *)
Theorem exhausted_grfs_keep_old_channels (n : nat) (i : Inputs)
    (b : @Buffers num) :
  toks (grfs_file i) = [] \/ good (grfs_file i) = false ->
  grfs (read_payload n (read_times i b)).2 = grfs b.
Proof.
  intros Hg.
  assert (good (grfs_file (read_times i b).1) = false /\
          grfs (read_times i b).2 = grfs b) as Htimes.
  { unfold read_times.
    destruct (extract_failed (grfs_file i) (time b) Hg) as [_ Hgood].
    destruct (extract (grfs_file i) (time b)) as [t1 g1].
    destruct (extract (states_file i) t1) as [t2 s2].
    destruct (extract (accelerations_file i) t2) as [t3 a3].
    by destruct (extract (dynamics_file i) t3) as [t4 d4]. }
  destruct (read_times i b) as [i1 b1]. unfold read_payload.
  apply (for_ind (fun _ ib => grfs ib.2 = grfs b)).
  - apply (for_ind (fun _ ib => good (grfs_file ib.1) = false /\
                                grfs ib.2 = grfs b)); [done|].
    intros j [i2 b2] _ [Hgood Hsame]. unfold read_grf_at. simpl in *.
    destruct (extract_at_failed (grfs_file i2) (grfs b2) j Hgood)
      as [Hv Hgood'].
    destruct (extract_at (grfs_file i2) (grfs b2) j) as [g s].
    simpl in *. subst g. by rewrite insert_same.
  - intros j [i2 b2] _ Hsame. unfold read_dof_at. simpl in *.
    destruct (j <? n).
    + destruct (extract_at (dynamics_file i2) (dynamics b2) j).
      destruct (extract_at (accelerations_file i2) (accelerations b2) j).
      by destruct (extract_at (states_file i2) (states b2) j).
    + by destruct (extract_at (states_file i2) (states b2) j).
Qed.

(** X11.  Once the acceleration file is exhausted or has failed, reading a
    frame converts the accelerations that are in the buffer once more: the
    entries of index below 3 and above 5 are multiplied by pi/180 again,
    the entries 3, 4 and 5 stay. *)
Theorem exhausted_accelerations_convert_again (n : nat) (i : Inputs)
    (b : @Buffers num) :
  toks (accelerations_file i) = [] \/ good (accelerations_file i) = false ->
  length (accelerations b) = n ->
  accelerations (read_payload n (read_times i b)).2
  = imap converted (accelerations b).
Proof.
  intros Ha Hlen.
  assert (good (accelerations_file (read_times i b).1) = false /\
          accelerations (read_times i b).2 = accelerations b) as Htimes.
  { unfold read_times.
    destruct (extract (grfs_file i) (time b)) as [t1 g1].
    destruct (extract (states_file i) t1) as [t2 s2].
    destruct (extract_failed (accelerations_file i) t2 Ha) as [_ Hgood].
    destruct (extract (accelerations_file i) t2) as [t3 a3].
    by destruct (extract (dynamics_file i) t3) as [t4 d4]. }
  destruct (read_times i b) as [i1 b1]. unfold read_payload.
  pose (P := fun (j : nat) (ib : @Inputs num * @Buffers num) =>
    good (accelerations_file ib.1) = false /\
    length (accelerations ib.2) = n /\
    forall k, accelerations ib.2 !! k
              = if decide (k < j `min` n)
                then converted k <$> accelerations b !! k
                else accelerations b !! k).
  assert (P (0 + 2 * n)
            (for_ 0 (2 * n) (read_dof_at n)
               (for_ 0 expectedGRFSize read_grf_at (i1, b1)))) as HP.
  { apply (for_ind P).
    - apply (for_ind (fun _ ib =>
               good (accelerations_file ib.1) = false /\
               accelerations ib.2 = accelerations b)
               read_grf_at expectedGRFSize 0 (i1, b1)) in Htimes.
      + destruct Htimes as [Hgood Hsame]. unfold P.
        rewrite Hsame. split; [done|]. split; [done|].
        intros k. case_decide; [lia|done].
      + intros j [i2 b2] _ Hib. unfold read_grf_at.
        by destruct (extract_at (grfs_file i2) (grfs b2) j).
    - intros j [i2 b2] Hj (Hgood & Hl & Hlook). unfold P, read_dof_at.
      cbn [fst snd] in *.
      destruct (Nat.ltb_spec j n) as [Hjn|Hjn].
      + destruct (extract_at (dynamics_file i2) (dynamics b2) j).
        destruct (extract_at_failed (accelerations_file i2)
                    (accelerations b2) j Hgood) as [Hv Hgood'].
        destruct (extract_at (accelerations_file i2) (accelerations b2) j)
          as [ac a'].
        destruct (extract_at (states_file i2) (states b2) j).
        cbn [fst snd accelerations accelerations_file] in *.
        subst ac. rewrite convert_in_place by lia.
        split; [done|]. split; [by rewrite length_insert|].
        intros k. rewrite list_lookup_insert.
        destruct (decide (j = k /\ j < length (accelerations b2)))
          as [[<- _]|Hne].
        * rewrite decide_True by lia. unfold at_.
          rewrite (Hlook j), decide_False by lia.
          destruct (lookup_lt_is_Some_2 (accelerations b) j) as [x ->];
            [lia|done].
        * rewrite Hlook.
          destruct (decide (k < j `min` n)), (decide (k < S j `min` n));
            (done || lia).
      + destruct (extract_at (states_file i2) (states b2) j).
        cbn [fst snd accelerations accelerations_file] in *.
        split; [done|]. split; [done|].
        intros k. rewrite Hlook. repeat case_decide; (done || lia). }
  destruct HP as (_ & Hl & Hlook).
  apply list_eq. intros k. rewrite Hlook, list_lookup_imap.
  case_decide; [done|].
  rewrite lookup_ge_None_2 by lia. done.
Qed.

End Stale.

Lemma exhausted_grfs_keep_old_channels_witness :
  grfs (read_payload 7
          (read_times
             {| grfs_file := file_of [];
                states_file := states_file units_inputs;
                accelerations_file := accelerations_file units_inputs;
                dynamics_file := dynamics_file units_inputs |}
             units_buffers)).2
  = grfs units_buffers.
Proof. apply exhausted_grfs_keep_old_channels. by left. Defined.

Lemma exhausted_accelerations_convert_again_witness :
  accelerations
    (read_payload 7
       (read_times
          {| grfs_file := grfs_file units_inputs;
             states_file := states_file units_inputs;
             accelerations_file := file_of [];
             dynamics_file := dynamics_file units_inputs |}
          units_buffers)).2
  = imap converted (accelerations units_buffers).
Proof.
  apply exhausted_accelerations_convert_again; [by left|reflexivity].
Defined.

(** The acceleration file ends after a first frame of 180 degrees: the
    inertia torque is pi * pi / 180 in frame 1 and that times pi / 180 in
    frame 2. *)
Example short_acc_run :
  internalForce_file (written (main short_acc_world 4 six_args))
  = [[0x1.2e1c12d39c145p+7]; [0x1.a007d6f0ca94ap+3]]%float.
Proof. by vm_compute. Qed.

(** Both directions of the three equivalences of an outcome, once the
    outcome is known. *)
Ltac settle_cases :=
  let Hcase := fresh "Hcase" in
  split; [|split]; (split; intros Hcase);
  repeat match type of Hcase with
         | _ /\ _ => let Hl := fresh in destruct Hcase as [Hl Hcase]
         | _ \/ _ => destruct Hcase as [Hcase|Hcase]
         | exists _, _ => let x := fresh in destruct Hcase as [x Hcase]
         end;
  first [ done | lia | by eexists | by left | right; lia
        | repeat split; (done || lia) ].

(** ** When a frame is decomposed and written *)

Section Outcomes.

Context {num : Type} `{Arith num}.

Lemma foldl_fault {A T : Type} (body : A -> T -> result T) (e : fault)
    (l : list A) :
  foldl (fun r j => r ≫= body j) (Fault e) l = Fault e.
Proof. induction l as [|j l IH]; [done|]. simpl. exact IH. Qed.

Lemma for_r_app {T : Type} (body : nat -> T -> result T) (a b : nat) (s : T) :
  for_r 0 (a + b) body s
  = foldl (fun r j => r ≫= body j) (for_r 0 a body s) (seq a b).
Proof. unfold for_r. by rewrite seq_app, foldl_app. Qed.

(** A body without a name stops the loop over the bodies. *)
Lemma contacts_unnamed (E : @Engine num) (st g : list num) :
  length (bodySet E) < numBodies E -> contacts E st g = Fault Thrown.
Proof.
  intros Hshort. unfold contacts.
  replace (numBodies E)
    with (length (bodySet E) + S (numBodies E - S (length (bodySet E))))
    by lia.
  rewrite for_r_app.
  destruct (contacts_from E st g (length (bodySet E)) 0 no_contact)
    as (c & -> & _); [lia|].
  simpl. unfold contact_at at 2.
  rewrite lookup_ge_None_2 by lia. simpl. apply foldl_fault.
Qed.

(** X12.  What decides whether a frame is decomposed.  The decomposition
    goes through exactly when the realization does not throw, the model has
    at most 18 bodies and the body set names each of them.  It leaves
    defined behaviour exactly when the realization went through and the
    model has more than 18 bodies, and it throws in every other case. *)
Theorem decompose_outcome (E : @Engine num)
    (stack : nat -> nat -> @SpatialVec num) (k : nat) (b : Buffers) :
  let r := decompose E (uninit_centrifugal stack k) b in
  ((exists t, r = OK t) <->
   realize E (states b) = true /\ numBodies E <= 18 /\
   numBodies E <= length (bodySet E)) /\
  (r = Fault Undefined <->
   realize E (states b) = true /\ 18 < numBodies E) /\
  (r = Fault Thrown <->
   realize E (states b) = false \/
   (numBodies E <= 18 /\ length (bodySet E) < numBodies E)).
Proof.
  cbv zeta. unfold decompose, coriolis.
  destruct (totalCentrifugalForces_spec E (states b)
              (uninit_centrifugal stack k)
              (length_uninit_centrifugal stack k)) as (_ & Hin & _).
  unfold centrifugalCapacity in Hin.
  destruct (realize E (states b)); [|settle_cases].
  destruct ((totalCentrifugalForces E (states b)
               (uninit_centrifugal stack k)).2) eqn:Hinside.
  - pose proof (proj1 Hin eq_refl) as Hfit. simpl.
    destruct (decide (numBodies E <= length (bodySet E))) as [Hnamed|Hshort].
    + destruct (contacts_spec E (states b) (grfs b) Hnamed) as (c & -> & _).
      simpl. settle_cases.
    + rewrite contacts_unnamed by lia. simpl. settle_cases.
  - assert (18 < numBodies E) as Hmany.
    { destruct (decide (numBodies E <= 18)) as [Hfit|?]; [|lia].
      apply Hin in Hfit. discriminate. }
    simpl. settle_cases.
Qed.

End Outcomes.


(** ** What a frame asks of the engine *)

Section Computed.

Context {num : Type} `{Arith num}.

Variables (E : @Engine num) (st g : list num).







End Computed.

Section Decomposed.

Context {num : Type} `{Arith num}.





End Decomposed.






(** ** The run on aligned frames, frame by frame *)

Section Aligned.

Context {num : Type} `{Arith num}.


End Aligned.




(** Why the amended C5 asks for a degree of freedom.  On a model without
    one, a frame of the states file is its time tag alone.  When the file
    ends with the last tag, reading that tag reaches the end of the file,
    and the test of line 179 leaves the loop before the frame is used:
    three aligned frames give one row, and [main] returns 0. *)
Lemma tight_states_file_loses_a_frame :
  aligned (ins (initial welded_world welded six_args)) welded_frames /\
  Forall (sized 0) welded_frames /\
  exit_status (main welded_world 10 six_args) = Exit 0 /\
  length (residualForce_file (written (main welded_world 10 six_args))) = 1 /\
  length welded_frames - 1 = 2.
Proof.
  split.
  { split; [exists []|split; [|split; exists []]];
      (split; [reflexivity|split; [reflexivity|done]]). }
  split; [repeat constructor|]. by vm_compute.
Qed.
